(** * First-page storefront scripts: cart.js, the search filter and the toast helper

    A shallow embedding of the page scripts.  The scripts are plain
    JavaScript over three pieces of browser state: [localStorage], a handful
    of DOM elements addressed by id, and the timer queue.  The embedding keeps
    that shape:

    - [Js]      the values the scripts compute with and the operators they use;
    - [Json]    [JSON.parse] and [JSON.stringify], as far as the cart uses them;
    - [Toast]   [showToast] together with the timer queue it schedules on;
    - [Cart]    cart.js, in a state-and-exception monad over the browser state;
    - [Filter]  the search and price filter over the product cards.
    - [Theme]   theme.js, the light and dark theme switch.

    Numbers are the integers together with NaN and the two infinities.  Up
    to magnitude 2^53 every integer is an IEEE double and [+], [-] and [*]
    are exact on them; [to_double] gives the double the engine rounds a
    larger integer result to.  Products and the running total of
    [calculateTotal] are rounded that way.  The arithmetic on quantities
    ([quantity + 1], [quantity - 1], the sum behind the badge) is written
    with the exact [num_add], which is the engine's [+] as long as the
    result stays within 2^53.  Fractions and the sign of zero are outside the
    model.  Strings are byte strings.  Time is a logical clock in
    milliseconds. *)

From Stdlib Require Import ZArith Ascii String List Bool Lia DecimalString.
From Stdlib Require DecimalFacts DecimalPos.
From stdpp Require Import base option list strings gmap.
Import ListNotations.

Open Scope Z_scope.

(* ===================================================================== *)
(** * JavaScript values and operators *)
(* ===================================================================== *)

Module Js.

(** ** Numbers *)

Inductive num : Type :=
| NaN
| PInf
| NInf
| Fin (z : Z).

Definition num_neg (a : num) : num :=
  match a with
  | NaN => NaN
  | PInf => NInf
  | NInf => PInf
  | Fin z => Fin (- z)
  end.

(** The exact sum.  It is the engine's [a + b] whenever the result is an
    integer of magnitude at most 2^53. *)
Definition num_add (a b : num) : num :=
  match a, b with
  | NaN, _ | _, NaN => NaN
  | PInf, NInf | NInf, PInf => NaN
  | PInf, _ | _, PInf => PInf
  | NInf, _ | _, NInf => NInf
  | Fin x, Fin y => Fin (x + y)
  end.

Definition num_sub (a b : num) : num := num_add a (num_neg b).

(** Sign of a number that is not NaN, as the multiplication table needs it. *)
Definition num_sgn (a : num) : Z :=
  match a with
  | NaN => 0
  | PInf => 1
  | NInf => -1
  | Fin z => Z.sgn z
  end.

(** ** Rounding

    The engine computes the exact result of an operation and stores the
    double nearest to it.  An integer of magnitude at most 2^53 is a double.
    A larger one keeps its 53 leading bits: with [k] bits to drop, the
    significand [a / 2^k] is kept when the dropped part [a mod 2^k] is below
    half of [2^k], raised by one when it is above, and made even when it is
    exactly half.  A result of magnitude 2^1024 or more is an infinity. *)
Definition to_double (z : Z) : num :=
  let a := Z.abs z in
  if a <=? 9007199254740992 then Fin z
  else
    let k := Z.log2 a - 52 in
    let q := a / 2 ^ k in
    let r := a mod 2 ^ k in
    let half := 2 ^ (k - 1) in
    let q' := if (r <? half) || ((r =? half) && Z.even q) then q else q + 1 in
    if 2 ^ 1024 <=? q' * 2 ^ k then (if z <? 0 then NInf else PInf)
    else Fin (Z.sgn z * (q' * 2 ^ k)).

(** A result once the engine has stored it. *)
Definition rounded (a : num) : num :=
  match a with
  | Fin z => to_double z
  | _ => a
  end.

(** [a * b] on numbers. *)
Definition num_mul (a b : num) : num :=
  match a, b with
  | NaN, _ | _, NaN => NaN
  | Fin x, Fin y => to_double (x * y)
  | _, _ =>
      match num_sgn a * num_sgn b with
      | Z0 => NaN
      | Zpos _ => PInf
      | Zneg _ => NInf
      end
  end.

(** [a < b] on numbers; every comparison with NaN is false. *)
Definition num_lt (a b : num) : bool :=
  match a, b with
  | NaN, _ | _, NaN => false
  | _, NInf => false
  | NInf, _ => true
  | PInf, _ => false
  | _, PInf => true
  | Fin x, Fin y => x <? y
  end.

(** [a === b] on numbers; NaN differs from itself. *)
Definition num_eqb (a b : num) : bool :=
  match a, b with
  | PInf, PInf | NInf, NInf => true
  | Fin x, Fin y => x =? y
  | _, _ => false
  end.

Definition num_le (a b : num) : bool := num_lt a b || num_eqb a b.
Definition num_gt (a b : num) : bool := num_lt b a.
Definition num_ge (a b : num) : bool := num_le b a.

(** [Number::toString] (radix 10) on the integer fragment. *)
Definition num_to_string (a : num) : string :=
  match a with
  | NaN => "NaN"
  | PInf => "Infinity"
  | NInf => "-Infinity"
  | Fin z => NilZero.string_of_int (Z.to_int z)
  end.

(** A number in a boolean position: 0 and NaN are falsy. *)
Definition num_truthy (a : num) : bool :=
  match a with
  | NaN => false
  | Fin z => negb (z =? 0)
  | _ => true
  end.

(** [a || b] where both sides are numbers. *)
Definition num_or (a b : num) : num := if num_truthy a then a else b.

(** ** Characters *)

Definition code (c : ascii) : Z := Z.of_N (N_of_ascii c).

(** White space as [String.prototype.trim], [parseInt] and the string to
    number conversion skip it (the one-byte part: TAB, LF, VT, FF, CR, SP). *)
Definition is_ws (c : ascii) : bool :=
  let n := code c in ((9 <=? n) && (n <=? 13)) || (n =? 32).

(** Value of [c] as a digit in [radix], if it is one. *)
Definition digit_val (radix : Z) (c : ascii) : option Z :=
  let n := code c in
  let v :=
    if (48 <=? n) && (n <=? 57) then n - 48
    else if (97 <=? n) && (n <=? 122) then n - 97 + 10
    else if (65 <=? n) && (n <=? 90) then n - 65 + 10
    else 36 in
  if v <? radix then Some v else None.

(** Longest prefix of [s] made of digits in [radix]: its value continuing
    from [acc], how many digits were read, and the rest of the string. *)
Fixpoint read_digits (radix : Z) (s : string) (acc : Z) (cnt : nat)
  : Z * nat * string :=
  match s with
  | EmptyString => (acc, cnt, s)
  | String c rest =>
      match digit_val radix c with
      | Some d => read_digits radix rest (acc * radix + d) (S cnt)
      | None => (acc, cnt, s)
      end
  end.

Fixpoint trim_start (s : string) : string :=
  match s with
  | String c rest => if is_ws c then trim_start rest else s
  | EmptyString => s
  end.

Fixpoint string_rev_onto (s acc : string) : string :=
  match s with
  | EmptyString => acc
  | String c rest => string_rev_onto rest (String c acc)
  end.

Definition string_rev (s : string) : string := string_rev_onto s EmptyString.

Definition trim (s : string) : string :=
  string_rev (trim_start (string_rev (trim_start s))).

(** An optional sign: whether it is [-], and the rest. *)
Definition read_sign (s : string) : bool * string :=
  match s with
  | String "-" rest => (true, rest)
  | String "+" rest => (false, rest)
  | _ => (false, s)
  end.

Definition signed (neg : bool) (z : Z) : Z := if neg then - z else z.

(** ** [parseInt(string)] with no radix argument *)

Definition parseInt (input : string) : num :=
  let (neg, s) := read_sign (trim_start input) in
  let (radix, s) :=
    match s with
    | String "0" (String "x" rest) | String "0" (String "X" rest) => (16, rest)
    | _ => (10, s)
    end in
  match read_digits radix s 0 0 with
  | (_, O, _) => NaN
  | (v, S _, _) => Fin (signed neg v)
  end.

(** ** String to number conversion ([StringToNumber])

    The grammar is ECMAScript's [StringNumericLiteral].  A literal with a
    fraction or a negative exponent denotes [m * 10^e]; when that is an
    integer it is the result.  A literal denoting a proper fraction has no
    counterpart among the numbers above and yields NaN here; that is where
    this function departs from the engine. *)

(** [ExponentPart]: [e] or [E], an optional sign, one digit or more; nothing
    may follow. *)
Definition read_exponent (s : string) : option Z :=
  match s with
  | EmptyString => Some 0
  | String c rest =>
      if (code c =? 101) || (code c =? 69) then
        let (neg, ds) := read_sign rest in
        match read_digits 10 ds 0 0 with
        | (v, S _, EmptyString) => Some (signed neg v)
        | _ => None
        end
      else None
  end.

(** [StrUnsignedDecimalLiteral] without the [Infinity] case: mantissa and
    decimal exponent. *)
Definition read_decimal (s : string) : option (Z * Z) :=
  let '(ip, ni, s1) := read_digits 10 s 0 0 in
  let '(m, nf, s2) :=
    match s1 with
    | String "." rest =>
        let '(m, nf, s2) := read_digits 10 rest ip 0 in (m, nf, s2)
    | _ => (ip, O, s1)
    end in
  match ni, nf with
  | O, O => None
  | _, _ =>
      match read_exponent s2 with
      | Some e => Some (m, e - Z.of_nat nf)
      | None => None
      end
  end.

(** The number [m * 10^e] when it is an integer. *)
Definition of_decimal (m e : Z) : num :=
  if 0 <=? e then Fin (m * 10 ^ e)
  else if m mod 10 ^ (- e) =? 0 then Fin (m / 10 ^ (- e))
  else NaN.

(** [0x], [0o] and [0b] literals: no sign, at least one digit, nothing after. *)
Definition read_radix_literal (s : string) : option Z :=
  let body radix rest :=
    match read_digits radix rest 0 0 with
    | (v, S _, EmptyString) => Some v
    | _ => None
    end in
  match s with
  | String "0" (String "x" rest) | String "0" (String "X" rest) => body 16 rest
  | String "0" (String "o" rest) | String "0" (String "O" rest) => body 8 rest
  | String "0" (String "b" rest) | String "0" (String "B" rest) => body 2 rest
  | _ => None
  end.

Definition StringToNumber (str : string) : num :=
  let s := trim str in
  match s with
  | EmptyString => Fin 0
  | _ =>
      match read_radix_literal s with
      | Some v => Fin v
      | None =>
          let (neg, u) := read_sign s in
          if String.eqb u "Infinity" then (if neg then NInf else PInf)
          else
            match read_decimal u with
            | Some (m, e) => of_decimal (signed neg m) e
            | None => NaN
            end
      end
  end.

(** ** Values

    The two kinds of value the page hands to the scripts: number literals
    written into the [onclick] handlers, and strings read from input
    fields. *)

Inductive value : Type :=
| VNum (n : num)
| VStr (s : string).

Definition ToNumber (v : value) : num :=
  match v with
  | VNum n => n
  | VStr s => StringToNumber s
  end.

Definition ToString (v : value) : string :=
  match v with
  | VNum n => num_to_string n
  | VStr s => s
  end.

(** [a + b]: concatenation as soon as one side is a string. *)
Definition js_add (a b : value) : value :=
  match a, b with
  | VNum x, VNum y => VNum (num_add x y)
  | _, _ => VStr (ToString a +:+ ToString b)
  end.

(** [a - b] and [a * b] always convert both sides to numbers. *)
Definition js_sub (a b : value) : num := num_sub (ToNumber a) (ToNumber b).
Definition js_mul (a b : value) : num := num_mul (ToNumber a) (ToNumber b).

(** [a < b]: two strings compare as strings, anything else as numbers. *)
Definition js_lt (a b : value) : bool :=
  match a, b with
  | VStr x, VStr y => String.ltb x y
  | _, _ => num_lt (ToNumber a) (ToNumber b)
  end.

(** [a <= b]. *)
Definition js_le (a b : value) : bool :=
  match a, b with
  | VStr x, VStr y => String.leb x y
  | _, _ => num_le (ToNumber a) (ToNumber b)
  end.

(** [a > b]. *)
Definition js_gt (a b : value) : bool := js_lt b a.

(** [a === b]: same kind and same value. *)
Definition strict_eq (a b : value) : bool :=
  match a, b with
  | VNum x, VNum y => num_eqb x y
  | VStr x, VStr y => String.eqb x y
  | _, _ => false
  end.

(** ASCII part of [String.prototype.toLowerCase]. *)
Definition lower_char (c : ascii) : ascii :=
  let n := code c in
  if (65 <=? n) && (n <=? 90) then ascii_of_N (Z.to_N (n + 32)) else c.

Fixpoint toLowerCase (s : string) : string :=
  match s with
  | EmptyString => EmptyString
  | String c rest => String (lower_char c) (toLowerCase rest)
  end.

(** [s.includes(t)]: [t] occurs in [s] as a substring. *)
Fixpoint includes (s t : string) : bool :=
  String.prefix t s ||
  match s with
  | EmptyString => false
  | String _ rest => includes rest t
  end.

End Js.

Import Js.


(* ===================================================================== *)
(** * Data model *)
(* ===================================================================== *)

(** One entry of the cart: the object literal [{ id, name, price, quantity }]
    built in [addToCart].  Nothing in cart.js checks what the fields hold, so
    each one is a [value]. *)
Record CartLine : Type := mkLine {
  id : value;
  name : value;
  price : value;
  quantity : value
}.

(** The [cart] array. *)
Abbreviation Cart := (list CartLine).

Definition with_quantity (q : value) (l : CartLine) : CartLine :=
  {| id := id l; name := name l; price := price l; quantity := q |}.

(* ===================================================================== *)
(** * JSON *)
(* ===================================================================== *)

Module Json.

(** A parsed JSON text.  A number is kept as written, [m * 10^e]; an object
    keeps its members in source order. *)
#[warnings="-register-all"]
Inductive json : Type :=
| JNull
| JBool (b : bool)
| JNumber (m e : Z)
| JString (s : string)
| JArray (items : list json)
| JObject (members : list (string * json)).

(** ** Lexical analysis, one character at a time *)

Inductive token : Type :=
| TLBracket | TRBracket | TLBrace | TRBrace | TColon | TComma
| TLit (v : json).

(** Where the lexer stands inside a number. *)
Inductive numst : Type :=
| NMinus | NZero | NInt | NDot | NFrac | NExp | NExpSign | NExpDig.

Record numacc : Type := mkNum {
  nneg : bool;      (* a leading minus sign was read *)
  nmant : Z;        (* the digits of integer and fraction part *)
  nfrac : Z;        (* how many of them are fraction digits *)
  neneg : bool;     (* the exponent has a minus sign *)
  nexp : Z          (* the digits of the exponent *)
}.

Inductive lexst : Type :=
| LDefault
| LStr (acc : string)                      (* inside a string; [acc] reversed *)
| LEsc (acc : string)                      (* after a backslash *)
| LHex (acc : string) (k : nat) (cp : Z)   (* in [\uXXXX], [S k] digits to go *)
| LNum (st : numst) (a : numacc)
| LWord (expect : string) (v : json).      (* inside [true], [false], [null] *)

Definition num_accepting (st : numst) : bool :=
  match st with
  | NZero | NInt | NFrac | NExpDig => true
  | _ => false
  end.

Definition num_token (a : numacc) : token :=
  TLit (JNumber (signed (nneg a) (nmant a)) (signed (neneg a) (nexp a) - nfrac a)).

(** UTF-8 bytes of a code unit, pushed on a reversed accumulator. *)
Definition byte (n : Z) : ascii := ascii_of_N (Z.to_N n).

Definition push_code_unit (cp : Z) (acc : string) : string :=
  if cp <? 128 then String (byte cp) acc
  else if cp <? 2048 then
    String (byte (128 + cp mod 64)) (String (byte (192 + cp / 64)) acc)
  else
    String (byte (128 + cp mod 64))
      (String (byte (128 + (cp / 64) mod 64))
         (String (byte (224 + cp / 4096)) acc)).

Definition lex_default (c : ascii) : option (lexst * list token) :=
  let n := code c in
  if (n =? 32) || (n =? 9) || (n =? 10) || (n =? 13) then Some (LDefault, [])
  else if n =? 91 then Some (LDefault, [TLBracket])
  else if n =? 93 then Some (LDefault, [TRBracket])
  else if n =? 123 then Some (LDefault, [TLBrace])
  else if n =? 125 then Some (LDefault, [TRBrace])
  else if n =? 58 then Some (LDefault, [TColon])
  else if n =? 44 then Some (LDefault, [TComma])
  else if n =? 34 then Some (LStr EmptyString, [])
  else if n =? 45 then Some (LNum NMinus (mkNum true 0 0 false 0), [])
  else if n =? 48 then Some (LNum NZero (mkNum false 0 0 false 0), [])
  else if (49 <=? n) && (n <=? 57) then
    Some (LNum NInt (mkNum false (n - 48) 0 false 0), [])
  else if n =? 116 then Some (LWord "rue" (JBool true), [])
  else if n =? 102 then Some (LWord "alse" (JBool false), [])
  else if n =? 110 then Some (LWord "ull" JNull, [])
  else None.

(** A character inside a number: the next state if it extends the number. *)
Definition lex_num (st : numst) (a : numacc) (c : ascii) : option (numst * numacc) :=
  let n := code c in
  if (48 <=? n) && (n <=? 57) then
    let d := n - 48 in
    match st with
    | NMinus =>
        Some (if d =? 0 then NZero else NInt,
              mkNum (nneg a) d 0 false 0)
    | NZero => None
    | NInt => Some (NInt, mkNum (nneg a) (nmant a * 10 + d) 0 false 0)
    | NDot | NFrac =>
        Some (NFrac, mkNum (nneg a) (nmant a * 10 + d) (nfrac a + 1) false 0)
    | NExp | NExpSign | NExpDig =>
        Some (NExpDig,
              mkNum (nneg a) (nmant a) (nfrac a) (neneg a) (nexp a * 10 + d))
    end
  else if n =? 46 then
    match st with
    | NZero | NInt => Some (NDot, a)
    | _ => None
    end
  else if (n =? 101) || (n =? 69) then
    match st with
    | NZero | NInt | NFrac => Some (NExp, a)
    | _ => None
    end
  else if (n =? 43) || (n =? 45) then
    match st with
    | NExp =>
        Some (NExpSign, mkNum (nneg a) (nmant a) (nfrac a) (n =? 45) (nexp a))
    | _ => None
    end
  else None.

Definition lex_escape (acc : string) (c : ascii) : option lexst :=
  let n := code c in
  if (n =? 34) || (n =? 92) || (n =? 47) then Some (LStr (String c acc))
  else if n =? 98 then Some (LStr (String (byte 8) acc))
  else if n =? 102 then Some (LStr (String (byte 12) acc))
  else if n =? 110 then Some (LStr (String (byte 10) acc))
  else if n =? 114 then Some (LStr (String (byte 13) acc))
  else if n =? 116 then Some (LStr (String (byte 9) acc))
  else if n =? 117 then Some (LHex acc 3 0)
  else None.

Definition lex_step (st : lexst) (c : ascii) : option (lexst * list token) :=
  match st with
  | LDefault => lex_default c
  | LStr acc =>
      let n := code c in
      if n =? 34 then Some (LDefault, [TLit (JString (string_rev acc))])
      else if n =? 92 then Some (LEsc acc, [])
      else if n <? 32 then None
      else Some (LStr (String c acc), [])
  | LEsc acc =>
      match lex_escape acc c with
      | Some st' => Some (st', [])
      | None => None
      end
  | LHex acc k cp =>
      match digit_val 16 c with
      | Some d =>
          match k with
          | O => Some (LStr (push_code_unit (cp * 16 + d) acc), [])
          | S k' => Some (LHex acc k' (cp * 16 + d), [])
          end
      | None => None
      end
  | LNum nst a =>
      match lex_num nst a c with
      | Some (nst', a') => Some (LNum nst' a', [])
      | None =>
          (* the number ends here; [c] is read again from the default state *)
          if num_accepting nst then
            match lex_default c with
            | Some (st', toks) => Some (st', num_token a :: toks)
            | None => None
            end
          else None
      end
  | LWord expect v =>
      match expect with
      | String e EmptyString =>
          if Ascii.eqb c e then Some (LDefault, [TLit v]) else None
      | String e rest =>
          if Ascii.eqb c e then Some (LWord rest v, []) else None
      | EmptyString => None
      end
  end.

(** What the lexer still owes when the text ends. *)
Definition lex_end (st : lexst) : option (list token) :=
  match st with
  | LDefault => Some []
  | LNum nst a => if num_accepting nst then Some [num_token a] else None
  | _ => None
  end.

(** ** Parsing: a stack of open arrays and objects *)

Inductive frame : Type :=
| FArr (items : list json)                          (* reversed *)
| FObj (members : list (string * json)) (key : option string).

Inductive mode : Type :=
| WantValue          (* at the start, after [,] in an array, after [:] *)
| WantValueOrClose   (* just after an opening bracket *)
| WantKey            (* after [,] in an object *)
| WantKeyOrClose     (* just after an opening brace *)
| WantColon
| AfterValue         (* inside an array or object, a value just ended *)
| Done (v : json).   (* the top-level value is complete *)

Definition pstate : Type := list frame * mode.

(** A value ends: it goes into the innermost open array or object. *)
Definition complete (v : json) (stack : list frame) : option pstate :=
  match stack with
  | [] => Some ([], Done v)
  | FArr items :: st => Some (FArr (v :: items) :: st, AfterValue)
  | FObj ms (Some k) :: st => Some (FObj ((k, v) :: ms) None :: st, AfterValue)
  | FObj _ None :: _ => None
  end.

Definition parse_token (p : pstate) (t : token) : option pstate :=
  let (stack, m) := p in
  match m, t with
  | (WantKey | WantKeyOrClose), TLit (JString k) =>
      match stack with
      | FObj ms None :: st => Some (FObj ms (Some k) :: st, WantColon)
      | _ => None
      end
  | (WantValue | WantValueOrClose), TLit v => complete v stack
  | (WantValue | WantValueOrClose), TLBracket =>
      Some (FArr [] :: stack, WantValueOrClose)
  | (WantValue | WantValueOrClose), TLBrace =>
      Some (FObj [] None :: stack, WantKeyOrClose)
  | (WantValueOrClose | AfterValue), TRBracket =>
      match stack with
      | FArr items :: st => complete (JArray (rev items)) st
      | _ => None
      end
  | (WantKeyOrClose | AfterValue), TRBrace =>
      match stack with
      | FObj ms None :: st => complete (JObject (rev ms)) st
      | _ => None
      end
  | AfterValue, TComma =>
      match stack with
      | FArr _ :: _ => Some (stack, WantValue)
      | FObj _ None :: _ => Some (stack, WantKey)
      | _ => None
      end
  | WantColon, TColon => Some (stack, WantValue)
  | _, _ => None
  end.

Fixpoint parse_tokens (p : pstate) (ts : list token) : option pstate :=
  match ts with
  | [] => Some p
  | t :: ts' =>
      match parse_token p t with
      | Some p' => parse_tokens p' ts'
      | None => None
      end
  end.

Fixpoint parse_from (l : lexst) (p : pstate) (text : string) : option json :=
  match text with
  | EmptyString =>
      match lex_end l with
      | Some ts =>
          match parse_tokens p ts with
          | Some ([], Done v) => Some v
          | _ => None
          end
      | None => None
      end
  | String c rest =>
      match lex_step l c with
      | Some (l', ts) =>
          match parse_tokens p ts with
          | Some p' => parse_from l' p' rest
          | None => None
          end
      | None => None
      end
  end.

(** [JSON.parse(text)]; [None] stands for the [SyntaxError] it throws. *)
Definition JSON_parse (text : string) : option json :=
  parse_from LDefault ([], WantValue) text.

(** A parsed value in a boolean position, as [||] tests it: [null], [false],
    zero and the empty string are falsy, arrays and objects are not. *)
Definition truthy (j : json) : bool :=
  match j with
  | JNull => false
  | JBool b => b
  | JNumber m _ => negb (m =? 0)
  | JString s => negb (String.eqb s EmptyString)
  | JArray _ | JObject _ => true
  end.

(** ** [JSON.stringify] of the cart *)

Definition dquote : string := String (byte 34) EmptyString.

Definition hex_digit (n : Z) : ascii :=
  if n <? 10 then byte (48 + n) else byte (87 + n).

(** [QuoteJSONString], character by character. *)
Definition quote_char (c : ascii) : string :=
  let n := code c in
  if n =? 34 then "\" +:+ dquote
  else if n =? 92 then "\\"
  else if n =? 8 then "\b"
  else if n =? 12 then "\f"
  else if n =? 10 then "\n"
  else if n =? 13 then "\r"
  else if n =? 9 then "\t"
  else if n <? 32 then
    "\u00" +:+ String (hex_digit (n / 16)) (String (hex_digit (n mod 16)) EmptyString)
  else String c EmptyString.

Fixpoint quote_body (s : string) : string :=
  match s with
  | EmptyString => EmptyString
  | String c rest => quote_char c +:+ quote_body rest
  end.

Definition quote (s : string) : string := dquote +:+ quote_body s +:+ dquote.

(** A finite number prints in decimal; NaN and the infinities as [null]. *)
Definition stringify_value (v : value) : string :=
  match v with
  | VNum (Fin z) => num_to_string (Fin z)
  | VNum _ => "null"
  | VStr s => quote s
  end.

Definition stringify_line (l : CartLine) : string :=
  "{" +:+ quote "id" +:+ ":" +:+ stringify_value (id l) +:+
  "," +:+ quote "name" +:+ ":" +:+ stringify_value (name l) +:+
  "," +:+ quote "price" +:+ ":" +:+ stringify_value (price l) +:+
  "," +:+ quote "quantity" +:+ ":" +:+ stringify_value (quantity l) +:+ "}".

Fixpoint join_lines (ls : Cart) : string :=
  match ls with
  | [] => EmptyString
  | [l] => stringify_line l
  | l :: rest => stringify_line l +:+ "," +:+ join_lines rest
  end.

(** [JSON.stringify(cart)]. *)
Definition JSON_stringify (cart : Cart) : string :=
  "[" +:+ join_lines cart +:+ "]".

(** ** Reading a parsed array back as cart lines *)

Definition value_of_json (j : json) : option value :=
  match j with
  | JNumber m e =>
      match of_decimal m e with
      | NaN => None
      | n => Some (VNum n)
      end
  | JString s => Some (VStr s)
  | _ => None
  end.

(** Property read: the last member with that key wins. *)
Fixpoint get_member (k : string) (ms : list (string * json)) : option json :=
  match ms with
  | [] => None
  | (k', v) :: rest =>
      match get_member k rest with
      | Some v' => Some v'
      | None => if String.eqb k k' then Some v else None
      end
  end.

Definition line_of_json (j : json) : option CartLine :=
  match j with
  | JObject ms =>
      i ← get_member "id" ms ≫= value_of_json;
      n ← get_member "name" ms ≫= value_of_json;
      p ← get_member "price" ms ≫= value_of_json;
      q ← get_member "quantity" ms ≫= value_of_json;
      Some (mkLine i n p q)
  | _ => None
  end.

Definition cart_of_json (j : json) : option Cart :=
  match j with
  | JArray items => mapM line_of_json items
  | _ => None
  end.


(** ** The tree [JSON.stringify] describes

    What the text written for a cart denotes: a finite number as itself, NaN
    and the infinities as [null], a string as itself. *)

Definition json_of_value (v : value) : json :=
  match v with
  | VNum (Fin z) => JNumber z 0
  | VNum _ => JNull
  | VStr s => JString s
  end.

Definition json_of_line (l : CartLine) : json :=
  JObject [("id", json_of_value (id l)); ("name", json_of_value (name l));
           ("price", json_of_value (price l));
           ("quantity", json_of_value (quantity l))].

Definition json_of_cart (c : Cart) : json := JArray (json_of_line <$> c).

(** A value that survives serialisation: a finite number or a string. *)
Definition storable (v : value) : Prop :=
  match v with
  | VNum (Fin _) | VStr _ => True
  | VNum _ => False
  end.

Definition storable_line (l : CartLine) : Prop :=
  storable (id l) /\ storable (name l) /\ storable (price l) /\
  storable (quantity l).

(** Digits of a decimal numeral folded into the number read so far, the way
    the lexer accumulates a mantissa. *)
Fixpoint uint_acc (d : Decimal.uint) (m : Z) : Z :=
  match d with
  | Decimal.Nil => m
  | Decimal.D0 d' => uint_acc d' (m * 10 + 0)
  | Decimal.D1 d' => uint_acc d' (m * 10 + 1)
  | Decimal.D2 d' => uint_acc d' (m * 10 + 2)
  | Decimal.D3 d' => uint_acc d' (m * 10 + 3)
  | Decimal.D4 d' => uint_acc d' (m * 10 + 4)
  | Decimal.D5 d' => uint_acc d' (m * 10 + 5)
  | Decimal.D6 d' => uint_acc d' (m * 10 + 6)
  | Decimal.D7 d' => uint_acc d' (m * 10 + 7)
  | Decimal.D8 d' => uint_acc d' (m * 10 + 8)
  | Decimal.D9 d' => uint_acc d' (m * 10 + 9)
  end.

End Json.

Import Json.


(* ===================================================================== *)
(** * The toast helper and the timer queue *)
(* ===================================================================== *)

Module Toast.

(** The toast [div]: its text and its inline style. *)
Record element : Type := mkElement {
  textContent : string;
  style : gmap string string
}.

(** The two callbacks [showToast] hands to [setTimeout]. *)
Inductive task : Type :=
| FadeOut     (* the outer arrow function: opacity 0, then schedule Unmount *)
| Unmount.    (* the inner arrow function: display none *)

Record timer : Type := mkTimer { due : Z; job : task }.

(** The part of the browser [showToast] works on.  [timers] holds the
    pending timeouts in the order they will fire: by due time, and in order
    of registration among equal due times. *)
Record world : Type := mkWorld {
  now : Z;
  toast : option element;      (* [document.getElementById('toast')] *)
  timers : list timer
}.

Definition set_style (prop val : string) (el : element) : element :=
  {| textContent := textContent el; style := <[prop := val]> (style el) |}.

Definition set_text (msg : string) (el : element) : element :=
  {| textContent := msg; style := style el |}.

Fixpoint enqueue (t : timer) (q : list timer) : list timer :=
  match q with
  | [] => [t]
  | h :: q' => if due t <? due h then t :: q else h :: enqueue t q'
  end.

(** [setTimeout(job, delay)]; a negative delay counts as 0. *)
Definition setTimeout (j : task) (delay : Z) (w : world) : world :=
  {| now := now w; toast := toast w;
     timers := enqueue (mkTimer (now w + Z.max 0 delay) j) (timers w) |}.

(** The element [document.createElement('div')] yields once the script has
    set its id and base style. *)
Definition created : element :=
  {| textContent := EmptyString;
     style :=
       <["transition" := "opacity 200ms ease-in-out, transform 200ms ease-in-out"]>
       (<["opacity" := "0"]>
       (<["zIndex" := "9999"]>
       (<["boxShadow" := "0 6px 18px rgba(0,0,0,0.4)"]>
       (<["borderRadius" := "8px"]>
       (<["padding" := "12px 18px"]>
       (<["color" := "#fff"]>
       (<["background" := "#222"]>
       (<["bottom" := "20px"]>
       (<["right" := "20px"]>
       (<["position" := "fixed"]> ∅)))))))))) |}.

Definition shown (message : string) (el : element) : element :=
  set_style "transform" "translateY(0)"
    (set_style "opacity" "1"
       (set_style "display" "block" (set_text message el))).

(** [showToast(message, duration)]. *)
Definition showToast (message : string) (duration : Z) (w : world) : world :=
  let el := match toast w with Some el => el | None => created end in
  setTimeout FadeOut duration
    {| now := now w; toast := Some (shown message el); timers := timers w |}.

(** [showToast(message)]: the default duration. *)
Definition showToast_default (message : string) : world -> world :=
  showToast message 2500.

(** One callback runs. *)
Definition run_task (j : task) (w : world) : world :=
  match j with
  | FadeOut =>
      setTimeout Unmount 220
        {| now := now w; toast := set_style "opacity" "0" <$> toast w;
           timers := timers w |}
  | Unmount =>
      {| now := now w; toast := set_style "display" "none" <$> toast w;
         timers := timers w |}
  end.

(** The event loop up to time [t]: while the first pending timer is due, the
    clock moves to its due time and its callback runs. *)
Fixpoint run (fuel : nat) (t : Z) (w : world) : world :=
  match fuel, timers w with
  | S fuel', h :: q =>
      if due h <=? t then
        run fuel' t
          (run_task (job h)
             {| now := Z.max (now w) (due h); toast := toast w; timers := q |})
      else w
  | _, _ => w
  end.

(** A fade-out stands for two callbacks, itself and the one it schedules. *)
Definition weight (tm : timer) : nat :=
  match job tm with FadeOut => 2 | Unmount => 1 end.

Definition pending (q : list timer) : nat := sum_list (weight <$> q).

(** Time passes until [t]. *)
Definition advance_to (t : Z) (w : world) : world :=
  let w' := run (pending (timers w)) t w in
  {| now := Z.max (now w') t; toast := toast w'; timers := timers w' |}.

(** The toast is on screen with [message]. *)
Definition showing (message : string) (w : world) : Prop :=
  exists el, toast w = Some el /\ textContent el = message /\
             style el !! "opacity" = Some "1" /\
             style el !! "display" = Some "block".

(** The toast has been faded out. *)
Definition faded (w : world) : Prop :=
  exists el, toast w = Some el /\ style el !! "opacity" = Some "0".

(** The first pending timer, if any, is not due at [t]. *)
Definition idle (t : Z) (w : world) : Prop :=
  match timers w with
  | h :: _ => t < due h
  | [] => True
  end.

(** A page on which no toast has been shown yet, at time [t]. *)
Definition fresh (t : Z) : world := {| now := t; toast := None; timers := [] |}.


(** The toast has been taken off the page. *)
Definition removed (w : world) : Prop :=
  exists el, toast w = Some el /\ style el !! "display" = Some "none".

(** The pending timers are in firing order. *)
Fixpoint sorted (q : list timer) : Prop :=
  match q with
  | [] => True
  | h :: q' => Forall (fun h' => due h <= due h') q' /\ sorted q'
  end.

(** What can happen to the toast: a call of [showToast], or time passing
    until [t].  A history is played from the first event to the last. *)
Inductive event : Type :=
| Call (message : string) (duration : Z)
| Wait (t : Z).

Definition happen (w : world) (e : event) : world :=
  match e with
  | Call message duration => showToast message duration w
  | Wait t => advance_to t w
  end.

Definition play (history : list event) (w : world) : world :=
  fold_left happen history w.

End Toast.


(* ===================================================================== *)
(** * cart.js *)
(* ===================================================================== *)

Module Cart.

(** ** Browser state *)

(** Which of the elements cart.js looks up by id exist on the current page.
    The shop page has the badge only; the cart page has all three. *)
Record page : Type := mkPage {
  has_cart_items : bool;     (* [#cart-items] *)
  has_cart_total : bool;     (* [#cart-total] *)
  has_cart_count : bool      (* [#cart-count] *)
}.

(** What a row of the cart display interpolates into its markup. *)
Record row : Type := mkRow {
  r_id : string;          (* [${item.id}] *)
  r_name : string;        (* [${item.name}] *)
  r_price : string;       (* [${item.price}] *)
  r_minus : string;       (* [${item.quantity - 1}] *)
  r_value : string;       (* [${item.quantity}] *)
  r_plus : string;        (* [${item.quantity + 1}] *)
  r_subtotal : string     (* [${(item.price * item.quantity).toFixed(2)}] *)
}.

(** The three pieces of markup [displayCart] writes; the fixed text around
    the interpolations is left out. *)
Inductive html : Type :=
| EmptyMessage                    (* [<p>Cart is empty.</p>] *)
| CartItems (rows : list row)
| TotalFooter (total : string).   (* [${total.toFixed(2)}] and the buttons *)

(** What the scripts do to the world outside the [cart] variable. *)
Inductive effect : Type :=
| ConsoleLog (args : list value)
| SetItem (key text : string)                   (* [localStorage.setItem] *)
| SetInnerHTML (elem : string) (content : html)
| SetBadge (text display : string).             (* [#cart-count] *)

Record state : Type := mkState {
  cart : Cart;
  localStorage : gmap string string;
  dom : page;
  toasts : Toast.world;
  trace : list effect        (* oldest first *)
}.

Inductive error : Type :=
| TypeError (elem : string)   (* property write on [null]: [elem] is missing *)
| SyntaxError.

(** ** Startup: [let cart = JSON.parse(localStorage.getItem('cart')) || []] *)

Inductive loaded : Type :=
| Loaded (v : json)
| LoadThrew (e : error).

(** [getItem] gives [null] for a missing key, which [JSON.parse] reads as
    the text [null]. *)
Definition cart_init (storage : gmap string string) : loaded :=
  match JSON_parse (default "null" (storage !! "cart")) with
  | None => LoadThrew SyntaxError
  | Some j => Loaded (if truthy j then j else JArray [])
  end.

(** ** The monad: state, and an exception that keeps the state reached *)

Inductive outcome (A : Type) : Type :=
| Returned (a : A) (s : state)
| Threw (e : error) (s : state).
Arguments Returned {A} a s.
Arguments Threw {A} e s.

Definition M (A : Type) : Type := state -> outcome A.

#[export] Instance M_ret : MRet M := fun A a s => Returned a s.

#[export] Instance M_bind : MBind M := fun A B f m s =>
  match m s with
  | Returned a s' => f a s'
  | Threw e s' => Threw e s'
  end.

Definition throw {A : Type} (e : error) : M A := fun s => Threw e s.
Definition get_cart : M Cart := fun s => Returned (cart s) s.
Definition get_dom : M page := fun s => Returned (dom s) s.

Definition set_cart (c : Cart) : M unit := fun s =>
  Returned tt
    {| cart := c; localStorage := localStorage s; dom := dom s;
       toasts := toasts s; trace := trace s |}.

Definition emit (e : effect) : M unit := fun s =>
  Returned tt
    {| cart := cart s; localStorage := localStorage s; dom := dom s;
       toasts := toasts s; trace := trace s ++ [e] |}.

(** [localStorage.setItem(key, text)]; the write always succeeds. *)
Definition setItem (key text : string) : M unit := fun s =>
  Returned tt
    {| cart := cart s; localStorage := <[key := text]> (localStorage s);
       dom := dom s; toasts := toasts s;
       trace := trace s ++ [SetItem key text] |}.

Definition showToast (message : string) : M unit := fun s =>
  Returned tt
    {| cart := cart s; localStorage := localStorage s; dom := dom s;
       toasts := Toast.showToast_default message (toasts s);
       trace := trace s |}.

(** The state an operation leaves behind, however it ended. *)
Definition final {A : Type} (o : outcome A) : state :=
  match o with
  | Returned _ s => s
  | Threw _ s => s
  end.

(** ** Array helpers *)

(** [cart.find(item => item.id === productId)]. *)
Definition find_line (productId : value) (c : Cart) : option CartLine :=
  List.find (fun item => strict_eq (id item) productId) c.

(** [cart.findIndex(item => item.id === productId)]: -1 when there is none. *)
Fixpoint findIndex (productId : value) (c : Cart) : Z :=
  match c with
  | [] => -1
  | item :: rest =>
      if strict_eq (id item) productId then 0
      else
        let i := findIndex productId rest in
        if i <? 0 then -1 else i + 1
  end.

(** An assignment through the reference [find] returned: the first line with
    that id is the one that changes. *)
Fixpoint update_found (productId : value) (f : CartLine -> CartLine) (c : Cart)
  : Cart :=
  match c with
  | [] => []
  | item :: rest =>
      if strict_eq (id item) productId then f item :: rest
      else item :: update_found productId f rest
  end.

(** [cart.reduce((sum, item) => sum + item.quantity, 0)]. *)
Definition total_items (c : Cart) : value :=
  fold_left (fun sum item => js_add sum (quantity item)) c (VNum (Fin 0)).

(** [cart.reduce((total, item) => total + (item.price * item.quantity), 0)].
    The product is a number whatever the fields hold, so the running total
    stays a number and [+] is addition throughout; each product and each
    running total is stored as a double. *)
Definition cart_total (c : Cart) : num :=
  fold_left
    (fun total item => rounded (num_add total (js_mul (price item) (quantity item))))
    c (Fin 0).

(** [n.toFixed(2)] on the integer fragment. *)
Definition toFixed2 (n : num) : string :=
  match n with
  | Fin z => num_to_string (Fin z) +:+ ".00"
  | _ => num_to_string n
  end.

(** ** The functions of cart.js *)

Definition calculateTotal : M num :=
  c ← get_cart; mret (cart_total c).

Definition render_row (item : CartLine) : row :=
  {| r_id := ToString (id item);
     r_name := ToString (name item);
     r_price := ToString (price item);
     r_minus := num_to_string (js_sub (quantity item) (VNum (Fin 1)));
     r_value := ToString (quantity item);
     r_plus := ToString (js_add (quantity item) (VNum (Fin 1)));
     r_subtotal := toFixed2 (js_mul (price item) (quantity item)) |}.

(** [element.innerHTML = content], where [element] came from
    [getElementById] and is [null] when the page lacks it. *)
Definition set_innerHTML (present : bool) (elem : string) (content : html)
  : M unit :=
  if present then emit (SetInnerHTML elem content) else throw (TypeError elem).

Definition displayCart : M unit :=
  pg ← get_dom;
  c ← get_cart;
  match c with
  | [] => set_innerHTML (has_cart_items pg) "cart-items" EmptyMessage
  | _ =>
      let html := CartItems (render_row <$> c) in
      set_innerHTML (has_cart_items pg) "cart-items" html;;
      total ← calculateTotal;
      set_innerHTML (has_cart_total pg) "cart-total" (TotalFooter (toFixed2 total))
  end.

Definition updateCartCount : M unit :=
  pg ← get_dom;
  if has_cart_count pg then
    c ← get_cart;
    let totalItems := total_items c in
    emit (SetBadge (ToString totalItems)
            (if js_gt totalItems (VNum (Fin 0)) then "block" else "none"))
  else mret tt.

Definition addToCart (productName price productId : value) : M unit :=
  emit (ConsoleLog [VStr "addToCart called →"; productName; price; productId]);;
  let product := mkLine productId productName price (VNum (Fin 1)) in
  c ← get_cart;
  match find_line productId c with
  | Some _ =>
      (* existingProduct.quantity += 1 *)
      set_cart
        (update_found productId
           (fun l => with_quantity (js_add (quantity l) (VNum (Fin 1))) l) c)
  | None => set_cart (c ++ [product])
  end;;
  c ← get_cart;
  setItem "cart" (JSON_stringify c);;
  let totalItems := total_items c in
  showToast ("✓ " +:+ ToString productName +:+ " added! (" +:+
             ToString totalItems +:+ " in cart)");;
  updateCartCount.

Definition removeFromCart (productId : value) : M unit :=
  c ← get_cart;
  let index := findIndex productId c in
  (if -1 <? index then set_cart (delete (Z.to_nat index) c) else mret tt);;
  c ← get_cart;
  setItem "cart" (JSON_stringify c);;
  displayCart;;
  updateCartCount.

Definition updateQuantity (productId newQuantity : value) : M unit :=
  c ← get_cart;
  match find_line productId c with
  | Some _ =>
      if js_le newQuantity (VNum (Fin 0)) then removeFromCart productId
      else
        set_cart (update_found productId (with_quantity newQuantity) c);;
        c ← get_cart;
        setItem "cart" (JSON_stringify c);;
        displayCart;;
        updateCartCount
  | None => mret tt
  end.

(** [clearCart()]; [confirmed] is the answer the [confirm] dialog gives. *)
Definition clearCart (confirmed : bool) : M unit :=
  if confirmed then
    set_cart [];;
    c ← get_cart;
    setItem "cart" (JSON_stringify c);;
    displayCart;;
    updateCartCount
  else emit (ConsoleLog [VStr "Cart clear cancelled by user"]).

(** The [DOMContentLoaded] handler. *)
Definition onLoad : M unit := displayCart;; updateCartCount.

(** ** Operations as data, for statements about sequences of calls *)

Inductive op : Type :=
| AddToCart (productName price productId : value)
| RemoveFromCart (productId : value)
| UpdateQuantity (productId newQuantity : value)
| ClearCart (confirmed : bool).

Definition perform (o : op) : M unit :=
  match o with
  | AddToCart n p i => addToCart n p i
  | RemoveFromCart i => removeFromCart i
  | UpdateQuantity i q => updateQuantity i q
  | ClearCart b => clearCart b
  end.

(** The user keeps going whether or not a handler threw. *)
Fixpoint perform_all (ops : list op) (s : state) : state :=
  match ops with
  | [] => s
  | o :: rest => perform_all rest (final (perform o s))
  end.

(** A page in its first moment: empty cart, nothing logged, no toast. *)
Definition start (storage : gmap string string) (pg : page) : state :=
  {| cart := []; localStorage := storage; dom := pg;
     toasts := Toast.fresh 0; trace := [] |}.

(** The store holds exactly the serialised cart. *)
Definition mirrored (s : state) : Prop :=
  localStorage s !! "cart" = Some (JSON_stringify (cart s)).

(** [keeps m]: running [m] changes neither the cart, nor the store, nor the
    set of elements on the page, whether it returns or throws; the trace only
    grows. *)
Definition keeps {A : Type} (m : M A) : Prop :=
  forall s, cart (final (m s)) = cart s /\
            localStorage (final (m s)) = localStorage s /\
            dom (final (m s)) = dom s /\
            exists more, trace (final (m s)) = trace s ++ more.

(** The calls that change the cart: every [addToCart] and [removeFromCart],
    [updateQuantity] on an id the cart holds, [clearCart] once confirmed. *)
Definition mutating (o : op) (s : state) : Prop :=
  match o with
  | AddToCart _ _ _ | RemoveFromCart _ => True
  | UpdateQuantity productId _ => is_Some (find_line productId (cart s))
  | ClearCart confirmed => confirmed = true
  end.







(** The increment [addToCart] applies to a line it finds. *)
Definition bump (l : CartLine) : CartLine :=
  with_quantity (js_add (quantity l) (VNum (Fin 1))) l.

(** The cart page, with all three elements, and the call behind the
    "Purchase now!" button of the BMW M3. *)
Definition cart_page : page := mkPage true true true.

Definition purchase_m3 : op :=
  AddToCart (VStr "BMW M3") (VNum (Fin 89900)) (VNum (Fin 1)).

(** A line whose quantity is a number that fails the test [quantity <= 0]. *)
Definition number_quantity (l : CartLine) : Prop :=
  exists n, quantity l = VNum n /\ num_le n (Fin 0) = false.

(** A call that passes no text as the new quantity. *)
Definition numeric_op (o : op) : Prop :=
  match o with
  | UpdateQuantity _ (VStr _) => False
  | _ => True
  end.

(** A line whose quantity passes the test [quantity <= 0]. *)
Definition nonpositive (l : CartLine) : bool :=
  js_le (quantity l) (VNum (Fin 0)).


(** No two lines carry ids that are [===] to each other. *)
Fixpoint unique_ids (c : Cart) : bool :=
  match c with
  | [] => true
  | l :: rest =>
      negb (existsb (fun x => strict_eq (id x) (id l)) rest) && unique_ids rest
  end.

(** The lines whose id is [===] to [productId], and the others. *)
Definition with_id (productId : value) (c : Cart) : Cart :=
  List.filter (fun l => strict_eq (id l) productId) c.

Definition without_id (productId : value) (c : Cart) : Cart :=
  List.filter (fun l => negb (strict_eq (id l) productId)) c.

(** The call returned rather than threw. *)
Definition returned {A : Type} (o : outcome A) : bool :=
  match o with
  | Returned _ _ => true
  | Threw _ _ => false
  end.

(** The elements [displayCart] writes to are there: [#cart-items] always,
    [#cart-total] when the cart has a line. *)
Definition can_render (s : state) : bool :=
  has_cart_items (dom s) &&
  match cart s with
  | [] => true
  | _ :: _ => has_cart_total (dom s)
  end.

(** A write to the cart display. *)
Definition writes_display (e : effect) : bool :=
  match e with
  | SetInnerHTML _ _ => true
  | _ => false
  end.

Definition writes_total (e : effect) : bool :=
  match e with
  | SetInnerHTML elem _ => String.eqb elem "cart-total"
  | _ => false
  end.

(** A line whose quantity is a number. *)
Definition number_line (l : CartLine) : Prop :=
  exists n, quantity l = VNum n.

(** The sum of the quantities, for a cart of number lines. *)
Fixpoint quantity_sum (c : Cart) : num :=
  match c with
  | [] => Fin 0
  | l :: rest => num_add (ToNumber (quantity l)) (quantity_sum rest)
  end.

(** The magnitudes of the finite number quantities, added up.  No sum the
    scripts form over the quantities of a cart can exceed it in magnitude. *)
Fixpoint quantity_weight (c : Cart) : Z :=
  match c with
  | [] => 0
  | l :: rest =>
      match quantity l with
      | VNum (Fin q) => Z.abs q
      | _ => 0
      end + quantity_weight rest
  end.

(** What a reload reads back from the store: line 19, then the parsed array
    taken as cart lines. *)
Definition reload (storage : gmap string string) : option Cart :=
  match cart_init storage with
  | Loaded j => cart_of_json j
  | LoadThrew _ => None
  end.


(** [s] with more effects on its trace. *)
Definition logged (more : list effect) (s : state) : state :=
  {| cart := cart s; localStorage := localStorage s; dom := dom s;
     toasts := toasts s; trace := trace s ++ more |}.

(** [s] once the cart has become [c] and has been written to the store. *)
Definition persisted (c : Cart) (s : state) : state :=
  {| cart := c; localStorage := <["cart" := JSON_stringify c]> (localStorage s);
     dom := dom s; toasts := toasts s;
     trace := trace s ++ [SetItem "cart" (JSON_stringify c)] |}.

(** The writes [displayCart] gets done on a page, up to the point where it
    returns or throws. *)
Definition display_effects (c : Cart) (pg : page) : list effect :=
  if has_cart_items pg then
    match c with
    | [] => [SetInnerHTML "cart-items" EmptyMessage]
    | _ :: _ =>
        SetInnerHTML "cart-items" (CartItems (render_row <$> c)) ::
        (if has_cart_total pg
         then [SetInnerHTML "cart-total" (TotalFooter (toFixed2 (cart_total c)))]
         else [])
    end
  else [].

(** The write [updateCartCount] does on a page. *)
Definition badge_effects (c : Cart) (pg : page) : list effect :=
  if has_cart_count pg then
    [SetBadge (ToString (total_items c))
       (if js_gt (total_items c) (VNum (Fin 0)) then "block" else "none")]
  else [].


(** A line whose quantity is a whole number above 0. *)
Definition counted_line (l : CartLine) : Prop :=
  exists q, quantity l = VNum (Fin q) /\ 0 < q.

End Cart.

Import Cart.


(* ===================================================================== *)
(** * The search and price filter *)
(* ===================================================================== *)

Module Filter.

(** A product card: its two data attributes, and whether its class list
    holds [hidden]. *)
Record card : Type := mkCard {
  data_name : string;
  data_price : string;
  hidden : bool
}.

(** One line of the filter's console output: the three interpolated values. *)
Record report : Type := mkReport {
  rep_search : string;
  rep_min : num;
  rep_max : num
}.

(** The shop page as the filter sees it: the values of the three inputs, the
    cards, and what was logged. *)
Record shop : Type := mkShop {
  searchInput : string;
  minPrice : string;
  maxPrice : string;
  productCards : list card;
  console : list report
}.

(** [parseInt(minPrice.value) || 0]. *)
Definition min_bound (text : string) : num := num_or (parseInt text) (Fin 0).

(** [parseInt(maxPrice.value) || Infinity]. *)
Definition max_bound (text : string) : num := num_or (parseInt text) PInf.

Definition matchesSearch (searchTerm : string) (c : card) : bool :=
  let productName := toLowerCase (data_name c) in
  includes productName searchTerm || String.eqb searchTerm EmptyString.

Definition matchesPrice (lo hi : num) (c : card) : bool :=
  let productPrice := parseInt (data_price c) in
  num_ge productPrice lo && num_le productPrice hi.

(** The body of the [forEach]. *)
Definition filter_card (searchTerm : string) (lo hi : num) (c : card) : card :=
  {| data_name := data_name c; data_price := data_price c;
     hidden := negb (matchesSearch searchTerm c && matchesPrice lo hi c) |}.

Definition filterProducts (pg : shop) : shop :=
  let searchTerm := toLowerCase (searchInput pg) in
  let lo := min_bound (minPrice pg) in
  let hi := max_bound (maxPrice pg) in
  {| searchInput := searchInput pg;
     minPrice := minPrice pg;
     maxPrice := maxPrice pg;
     productCards := filter_card searchTerm lo hi <$> productCards pg;
     console := console pg ++ [mkReport searchTerm lo hi] |}.

(** A card is on screen. *)
Definition visible (c : card) : bool := negb (hidden c).

Definition show_card (c : card) : card :=
  {| data_name := data_name c; data_price := data_price c; hidden := false |}.

(** [resetFilters()].  The fixed line it logs carries none of the page's
    values and is not kept in [console], which holds the filter's reports. *)
Definition resetFilters (pg : shop) : shop :=
  {| searchInput := EmptyString;
     minPrice := EmptyString;
     maxPrice := EmptyString;
     productCards := show_card <$> productCards pg;
     console := console pg |}.

(** [quickFilter(type)]: both price boxes are cleared first, then one box
    or the search box is set, then the filter runs. *)
Definition quickFilter (type : string) (pg : shop) : shop :=
  let set lo hi term :=
    {| searchInput := term; minPrice := lo; maxPrice := hi;
       productCards := productCards pg; console := console pg |} in
  filterProducts
    (if String.eqb type "affordable" then set EmptyString "100000" EmptyString
     else if String.eqb type "luxury" then set "100000" EmptyString EmptyString
     else set EmptyString EmptyString type).

(** What a price box holds when it is empty or has no number to read. *)
Definition blank (text : string) : Prop :=
  text = EmptyString \/ parseInt text = NaN.

(** The same, or a number that reads as 0. *)
Definition blank_or_zero (text : string) : Prop :=
  blank text \/ parseInt text = Fin 0.

End Filter.

Import Filter.

(* ===================================================================== *)
(** * theme.js *)
(* ===================================================================== *)

Module Theme.

(** The part of the browser theme.js works on: the store, the custom
    properties set inline on the root element, the text of the toggle button
    when the page has one, and the console. *)
Record state : Type := mkState {
  localStorage : gmap string string;
  root_style : gmap string string;
  themeToggle : option string;
  console : list string
}.

Definition light_vars : list (string * string) :=
  [("--bg-primary", "#f5f5f5"); ("--bg-secondary", "#ffffff");
   ("--text-primary", "#000000"); ("--text-secondary", "#333333");
   ("--border-color", "#dddddd"); ("--card-bg", "#ffffff");
   ("--card-shadow", "rgba(0,0,0,0.1)")].

Definition dark_vars : list (string * string) :=
  [("--bg-primary", "#0a0a0a"); ("--bg-secondary", "#000000");
   ("--text-primary", "#ffffff"); ("--text-secondary", "#cccccc");
   ("--border-color", "#333333"); ("--card-bg", "#121212");
   ("--card-shadow", "rgba(0,0,0,0.6)")].

(** A run of [root.style.setProperty(name, value)] calls, first to last. *)
Definition set_properties (vars : list (string * string))
    (style : gmap string string) : gmap string string :=
  fold_left (fun st kv => <[kv.1 := kv.2]> st) vars style.

Definition applyTheme (theme : string) (s : state) : state :=
  let root :=
    if String.eqb theme "light" then set_properties light_vars (root_style s)
    else if String.eqb theme "dark" then set_properties dark_vars (root_style s)
    else root_style s in
  let button :=
    (fun _ => if String.eqb theme "dark" then "☀️ Light Mode" else "🌙 Dark Mode")
      <$> themeToggle s in
  {| localStorage := <["theme" := theme]> (localStorage s);
     root_style := root;
     themeToggle := button;
     console := console s ++ ["Theme applied: " +:+ theme] |}.

Definition log (line : string) (s : state) : state :=
  {| localStorage := localStorage s; root_style := root_style s;
     themeToggle := themeToggle s; console := console s ++ [line] |}.

(** [localStorage.getItem('theme') || 'dark']: a missing key and the empty
    string both give the default. *)
Definition saved_or_dark (s : state) : string :=
  match localStorage s !! "theme" with
  | Some t => if String.eqb t EmptyString then "dark" else t
  | None => "dark"
  end.

Definition initTheme (s : state) : state :=
  let theme := saved_or_dark s in
  log ("Theme initialized: " +:+ theme) (applyTheme theme s).

Definition toggleTheme (s : state) : state :=
  let currentTheme := saved_or_dark s in
  let newTheme := if String.eqb currentTheme "dark" then "light" else "dark" in
  log ("Theme toggled: " +:+ currentTheme +:+ " → " +:+ newTheme)
    (applyTheme newTheme s).

(** The variables of a theme are all in force. *)
Definition in_force (vars : list (string * string)) (s : state) : Prop :=
  Forall (fun kv => root_style s !! kv.1 = Some kv.2) vars.

(** Two states show the same theme: store entry, root variables, button. *)
Definition same_theme (s1 s2 : state) : Prop :=
  localStorage s1 = localStorage s2 /\ root_style s1 = root_style s2 /\
  themeToggle s1 = themeToggle s2.

End Theme.



(* ===================================================================== *)
(** * Properties of cart.js *)
(* ===================================================================== *)

(** ** Which steps leave the cart and the store alone *)

Ltac keeps_now more :=
  intros s; repeat split; try done; exists more; simpl; by rewrite ?app_nil_r.

Lemma keeps_ret {A : Type} (a : A) : keeps (mret a).
Proof. keeps_now (@nil effect). Qed.

Lemma keeps_throw {A : Type} (e : error) : keeps (@throw A e).
Proof. keeps_now (@nil effect). Qed.

Lemma keeps_emit (e : effect) : keeps (emit e).
Proof. keeps_now [e]. Qed.

Lemma keeps_get_cart : keeps get_cart.
Proof. keeps_now (@nil effect). Qed.

Lemma keeps_get_dom : keeps get_dom.
Proof. keeps_now (@nil effect). Qed.

Lemma keeps_showToast (message : string) : keeps (Cart.showToast message).
Proof. keeps_now (@nil effect). Qed.

Lemma keeps_bind {A B : Type} (m : M A) (f : A -> M B) :
  keeps m -> (forall a, keeps (f a)) -> keeps (m ≫= f).
Proof.
  intros Hm Hf s. unfold mbind, M_bind.
  destruct (Hm s) as (Hc & Hl & Hd & more & Ht).
  destruct (m s) as [a s'|e s']; simpl in *.
  - destruct (Hf a s') as (Hc' & Hl' & Hd' & more' & Ht').
    rewrite Hc', Hl', Hd', Ht', Ht, <- app_assoc. eauto.
  - eauto.
Qed.

Lemma keeps_set_innerHTML (present : bool) (elem : string) (content : html) :
  keeps (set_innerHTML present elem content).
Proof. destruct present; [apply keeps_emit | apply keeps_throw]. Qed.

Lemma keeps_calculateTotal : keeps calculateTotal.
Proof.
  apply keeps_bind; [apply keeps_get_cart | intros c; apply keeps_ret].
Qed.

Lemma keeps_displayCart : keeps displayCart.
Proof.
  unfold displayCart.
  apply keeps_bind; [apply keeps_get_dom | intros pg].
  apply keeps_bind; [apply keeps_get_cart | intros c].
  destruct c as [|l c]; [apply keeps_set_innerHTML |].
  apply keeps_bind; [apply keeps_set_innerHTML | intros _].
  apply keeps_bind; [apply keeps_calculateTotal | intros total].
  apply keeps_set_innerHTML.
Qed.

Lemma keeps_updateCartCount : keeps updateCartCount.
Proof.
  unfold updateCartCount.
  apply keeps_bind; [apply keeps_get_dom | intros pg].
  destruct (has_cart_count pg); [| apply keeps_ret].
  apply keeps_bind; [apply keeps_get_cart | intros c; apply keeps_emit].
Qed.

Lemma mirrored_keeps (m : M unit) (s : state) :
  keeps m -> mirrored s -> mirrored (final (m s)).
Proof.
  intros Hm Hs. destruct (Hm s) as (Hc & Hl & _).
  unfold mirrored. by rewrite Hc, Hl.
Qed.

Lemma keeps_render : keeps (displayCart;; updateCartCount).
Proof.
  apply keeps_bind; [apply keeps_displayCart | intros _; apply keeps_updateCartCount].
Qed.

Lemma addToCart_mirrored (productName price productId : value) (s : state) :
  mirrored (final (addToCart productName price productId s)).
Proof.
  unfold addToCart, mbind, M_bind, emit, get_cart. simpl.
  destruct (find_line productId (cart s)); simpl;
    (apply mirrored_keeps; [apply keeps_updateCartCount |]);
    unfold mirrored; simpl; apply lookup_insert_eq.
Qed.

Lemma removeFromCart_mirrored (productId : value) (s : state) :
  mirrored (final (removeFromCart productId s)).
Proof.
  unfold removeFromCart, mbind at 1 2 3 4, M_bind, get_cart. simpl.
  destruct (-1 <? findIndex productId (cart s)); simpl;
    (apply (mirrored_keeps (displayCart;; updateCartCount)); [apply keeps_render |]);
    unfold mirrored; simpl; apply lookup_insert_eq.
Qed.

(** C1.  After [addToCart], after [removeFromCart], after [updateQuantity] on
    an id the cart holds and after a confirmed [clearCart], the text stored
    under the key [cart] is the serialisation of the in-memory cart; this
    holds for the state the call leaves behind whether it returned or was cut
    short by a missing page element. *)
Theorem store_mirrors_cart (o : op) (s : state) :
  mutating o s -> mirrored (final (perform o s)).
Proof.
  destruct o as [n p i | i | i q | b]; simpl.
  - intros _. apply addToCart_mirrored.
  - intros _. apply removeFromCart_mirrored.
  - intros [l Hl]. unfold updateQuantity, mbind at 1, M_bind at 1, get_cart.
    rewrite Hl. destruct (js_le q (VNum (Fin 0))).
    + apply removeFromCart_mirrored.
    + unfold mbind at 1 2 3, M_bind, get_cart. simpl.
      apply (mirrored_keeps (displayCart;; updateCartCount)); [apply keeps_render |].
      unfold mirrored. simpl. apply lookup_insert_eq.
  - intros ->. unfold clearCart, mbind at 1 2 3, M_bind, get_cart. simpl.
    apply (mirrored_keeps (displayCart;; updateCartCount)); [apply keeps_render |].
    unfold mirrored. simpl. apply lookup_insert_eq.
Qed.

(** C1, at a cart holding one BMW M3 whose quantity is set to 3. *)
Lemma store_mirrors_cart_witness :
  let s := perform_all [purchase_m3] (start ∅ cart_page) in
  let s' := final (updateQuantity (VNum (Fin 1)) (VNum (Fin 3)) s) in
  localStorage s' !! "cart" = Some (JSON_stringify (cart s')).
Proof.
  intros s s'.
  apply (store_mirrors_cart (UpdateQuantity (VNum (Fin 1)) (VNum (Fin 3))) s).
  simpl. eexists. reflexivity.
Defined.

(** ** The cart each call leaves behind *)

Lemma cart_keeps {A : Type} (m : M A) (s : state) :
  keeps m -> cart (final (m s)) = cart s.
Proof. intros Hm. apply Hm. Qed.

Lemma storage_keeps {A : Type} (m : M A) (s : state) :
  keeps m -> localStorage (final (m s)) = localStorage s.
Proof. intros Hm. apply Hm. Qed.

Lemma cart_addToCart (productName price productId : value) (s : state) :
  cart (final (addToCart productName price productId s)) =
  match find_line productId (cart s) with
  | Some _ => update_found productId bump (cart s)
  | None => cart s ++ [mkLine productId productName price (VNum (Fin 1))]
  end.
Proof.
  unfold addToCart, mbind, M_bind, emit, get_cart. simpl.
  destruct (find_line productId (cart s)); simpl;
    (etrans; [apply (cart_keeps updateCartCount), keeps_updateCartCount |]); done.
Qed.

Lemma cart_removeFromCart (productId : value) (s : state) :
  cart (final (removeFromCart productId s)) =
  if -1 <? findIndex productId (cart s)
  then delete (Z.to_nat (findIndex productId (cart s))) (cart s)
  else cart s.
Proof.
  unfold removeFromCart, mbind at 1 2 3 4, M_bind, get_cart. simpl.
  destruct (-1 <? findIndex productId (cart s)); simpl;
    (etrans; [apply (cart_keeps (displayCart;; updateCartCount)), keeps_render |]);
    done.
Qed.

Lemma updateQuantity_missing (productId newQuantity : value) (s : state) :
  find_line productId (cart s) = None ->
  updateQuantity productId newQuantity s = Returned tt s.
Proof.
  intros H. unfold updateQuantity, mbind, M_bind, get_cart. by rewrite H.
Qed.

Lemma updateQuantity_nonpositive (productId newQuantity : value) (s : state) :
  is_Some (find_line productId (cart s)) ->
  js_le newQuantity (VNum (Fin 0)) = true ->
  updateQuantity productId newQuantity s = removeFromCart productId s.
Proof.
  intros [l H] Hq. unfold updateQuantity, mbind at 1, M_bind at 1, get_cart.
  by rewrite H, Hq.
Qed.

Lemma cart_updateQuantity_positive (productId newQuantity : value) (s : state) :
  is_Some (find_line productId (cart s)) ->
  js_le newQuantity (VNum (Fin 0)) = false ->
  cart (final (updateQuantity productId newQuantity s)) =
  update_found productId (with_quantity newQuantity) (cart s).
Proof.
  intros [l H] Hq. unfold updateQuantity, mbind at 1, M_bind at 1, get_cart.
  rewrite H, Hq. unfold mbind at 1 2 3, M_bind, get_cart. simpl.
  etrans; [apply (cart_keeps (displayCart;; updateCartCount)), keeps_render |].
  done.
Qed.

Lemma cart_clearCart_confirmed (s : state) :
  cart (final (clearCart true s)) = [] /\
  localStorage (final (clearCart true s)) !! "cart" = Some "[]".
Proof.
  unfold clearCart, mbind at 1 2 3, M_bind, get_cart. simpl.
  split.
  - etrans; [apply (cart_keeps (displayCart;; updateCartCount)), keeps_render |].
    done.
  - etrans; [apply f_equal, (storage_keeps (displayCart;; updateCartCount)),
             keeps_render |].
    apply lookup_insert_eq.
Qed.

(** ** Lines found, lines changed *)

Lemma update_found_map {B : Type} (g : CartLine -> B) (f : CartLine -> CartLine)
    (productId : value) (c : Cart) :
  (forall l, g (f l) = g l) ->
  g <$> update_found productId f c = g <$> c.
Proof.
  intros Hg. induction c as [|l c IH]; [done |]. cbn [update_found].
  destruct (strict_eq (id l) productId); csimpl; [by rewrite Hg | by rewrite IH].
Qed.

Lemma update_found_length (f : CartLine -> CartLine) (productId : value) (c : Cart) :
  length (update_found productId f c) = length c.
Proof.
  induction c as [|l c IH]; [done |]. simpl.
  destruct (strict_eq (id l) productId); simpl; [done | by rewrite IH].
Qed.

(** C9.  When the cart already holds a line with the given id, [addToCart]
    with any name and price leaves every line's id, name and price as they
    were and adds no line: only the quantity of the line found changes.  The
    name and price passed in reach the cart only when no line is found, as
    the fields of the appended line. *)
Theorem addToCart_existing_keeps_name_price
    (name2 price2 productId : value) (s : state) :
  let c' := cart (final (addToCart name2 price2 productId s)) in
  (is_Some (find_line productId (cart s)) ->
     c' = update_found productId bump (cart s) /\
     length c' = length (cart s) /\
     name <$> c' = name <$> cart s /\
     price <$> c' = price <$> cart s /\
     id <$> c' = id <$> cart s) /\
  (find_line productId (cart s) = None ->
     c' = cart s ++ [mkLine productId name2 price2 (VNum (Fin 1))]).
Proof.
  intros c'. subst c'. rewrite cart_addToCart. split.
  - intros [l ->]. split; [done |]. split; [apply update_found_length |].
    repeat split; by apply update_found_map.
  - by intros ->.
Qed.

(** C9, at a cart holding one BMW M3: adding id 1 under another name and
    price changes the quantity and nothing else. *)
Lemma addToCart_existing_keeps_name_price_witness :
  let s := {| cart := [mkLine (VNum (Fin 1)) (VStr "BMW M3") (VNum (Fin 89900))
                         (VNum (Fin 1))];
              localStorage := ∅; dom := mkPage false false true;
              toasts := Toast.fresh 0; trace := [] |} in
  cart (final (addToCart (VStr "BMW M4") (VNum (Fin 5)) (VNum (Fin 1)) s)) =
  [mkLine (VNum (Fin 1)) (VStr "BMW M3") (VNum (Fin 89900)) (VNum (Fin 2))].
Proof.
  intros s.
  destruct (addToCart_existing_keeps_name_price
              (VStr "BMW M4") (VNum (Fin 5)) (VNum (Fin 1)) s) as [H _].
  destruct H as [-> _]; [by eexists | reflexivity].
Defined.

(** ** The total *)

Lemma num_add_assoc (a b c : num) :
  num_add a (num_add b c) = num_add (num_add a b) c.
Proof. destruct a, b, c; simpl; try done. f_equal. lia. Qed.

Lemma num_add_0_r (a : num) : num_add a (Fin 0) = a.
Proof. destruct a; simpl; try done. f_equal. lia. Qed.

Lemma num_add_0_l (a : num) : num_add (Fin 0) a = a.
Proof. by destruct a. Qed.








(** ** [clearCart] *)

(** C7.  A declined [clearCart()] returns the state it was given except for
    one more console line: the cart, the store and the page are the same, and
    the trace gains neither a [setItem] nor a write to the cart display.  A
    confirmed one leaves the cart empty and the text of the empty array under
    the key [cart], the [setItem] being the first effect it issues. *)
Theorem clearCart_declined_confirmed (s : state) :
  clearCart false s =
    Returned tt
      {| cart := cart s; localStorage := localStorage s; dom := dom s;
         toasts := toasts s;
         trace := trace s ++ [ConsoleLog [VStr "Cart clear cancelled by user"]] |}
  /\ cart (final (clearCart true s)) = []
  /\ localStorage (final (clearCart true s)) !! "cart" = Some "[]"
  /\ exists rest, trace (final (clearCart true s)) =
                  trace s ++ SetItem "cart" "[]" :: rest.
Proof.
  split; [done |].
  destruct (cart_clearCart_confirmed s) as [Hc Hl].
  split; [exact Hc |]. split; [exact Hl |].
  unfold clearCart, mbind at 1 2 3, M_bind, get_cart. simpl.
  match goal with |- context [final (?m ?s')] =>
    destruct (keeps_render s') as (_ & _ & _ & more & Ht);
    change (final (m s')) with (final ((displayCart;; updateCartCount) s'))
  end.
  rewrite Ht. simpl. rewrite <- app_assoc. eauto.
Qed.

(** ** Startup *)

(** C2, refuted as stated: with text under the key [cart] that is not JSON,
    the initialisation does not yield the empty cart; [JSON.parse] throws
    and nothing catches it. *)
Lemma cart_init_malformed_throws :
  JSON_parse "{oops" = None /\
  cart_init (<["cart" := "{oops"]> ∅) = LoadThrew SyntaxError /\
  cart_init (<["cart" := "{oops"]> ∅) <> Loaded (JArray []).
Proof. repeat split; [vm_compute; reflexivity .. | vm_compute; discriminate]. Qed.

(** C2, as the code has it.  With nothing stored under the key [cart] the
    cart starts as the empty array and nothing is thrown.  With stored text
    that [JSON.parse] rejects, the initialisation throws a [SyntaxError]: it
    does not fall back to the empty cart. *)
Theorem cart_init_absent_or_malformed (storage : gmap string string) :
  (storage !! "cart" = None -> cart_init storage = Loaded (JArray [])) /\
  (forall text, storage !! "cart" = Some text -> JSON_parse text = None ->
     cart_init storage = LoadThrew SyntaxError).
Proof.
  unfold cart_init. split.
  - intros ->. reflexivity.
  - intros text -> Hbad. simpl. by rewrite Hbad.
Qed.

Lemma cart_init_absent_or_malformed_witness :
  cart_init ∅ = Loaded (JArray []) /\
  cart_init (<["cart" := "[1,2"]> ∅) = LoadThrew SyntaxError.
Proof.
  split.
  - apply (cart_init_absent_or_malformed ∅). reflexivity.
  - apply (cart_init_absent_or_malformed (<["cart" := "[1,2"]> ∅)) with "[1,2";
      reflexivity.
Defined.

(** Text that parses is taken as it is, unless it is falsy. *)
Lemma cart_init_parsed (storage : gmap string string) (text : string) (j : json) :
  storage !! "cart" = Some text -> JSON_parse text = Some j ->
  cart_init storage = Loaded (if truthy j then j else JArray []).
Proof. intros Hs Hp. unfold cart_init. rewrite Hs. simpl. by rewrite Hp. Qed.

(** What [addToCart] stored comes back as the same cart. *)
Example cart_init_roundtrip :
  let s := perform_all [purchase_m3; purchase_m3] (start ∅ cart_page) in
  (match cart_init (localStorage s) with
   | Loaded j => cart_of_json j
   | LoadThrew _ => None
   end) = Some (cart s).
Proof. vm_compute. reflexivity. Qed.

(** ** Quantities *)

(** Scenarios A to D of the specification. *)
Example scenario_A :
  let s := perform_all [purchase_m3] (start ∅ cart_page) in
  cart s = [mkLine (VNum (Fin 1)) (VStr "BMW M3") (VNum (Fin 89900)) (VNum (Fin 1))]
  /\ calculateTotal s = Returned (Fin 89900) s.
Proof. split; vm_compute; reflexivity. Qed.

Example scenario_B :
  let s := perform_all [purchase_m3; purchase_m3] (start ∅ cart_page) in
  cart s = [mkLine (VNum (Fin 1)) (VStr "BMW M3") (VNum (Fin 89900)) (VNum (Fin 2))]
  /\ calculateTotal s = Returned (Fin 179800) s.
Proof. split; vm_compute; reflexivity. Qed.

Example scenario_C :
  cart (perform_all [purchase_m3; purchase_m3;
                     UpdateQuantity (VNum (Fin 1)) (VNum (Fin 0))]
          (start ∅ cart_page)) = [].
Proof. vm_compute. reflexivity. Qed.

Example scenario_D :
  cart (perform_all [UpdateQuantity (VNum (Fin 99)) (VNum (Fin 5))]
          (start ∅ cart_page)) = [].
Proof. vm_compute. reflexivity. Qed.

(** On a line whose quantity is a number, the increment is numeric. *)
Lemma bump_number (l : CartLine) (n : num) :
  quantity l = VNum n -> quantity (bump l) = VNum (num_add n (Fin 1)).
Proof. intros H. unfold bump. simpl. by rewrite H. Qed.

(** On a line whose quantity is text, it appends the character 1. *)
Lemma bump_text (l : CartLine) (t : string) :
  quantity l = VStr t -> quantity (bump l) = VStr (t +:+ "1").
Proof. intros H. unfold bump. simpl. by rewrite H. Qed.

(** C4, evaluated on the call the quantity box issues.  With one BMW M3 in the
    cart, [updateQuantity(1, "5")] stores the text ["5"] itself as the line's
    quantity, not the number 5 that the text converts to. *)
Theorem updateQuantity_stores_text :
  let s := perform_all [purchase_m3; UpdateQuantity (VNum (Fin 1)) (VStr "5")]
             (start ∅ cart_page) in
  cart s = [mkLine (VNum (Fin 1)) (VStr "BMW M3") (VNum (Fin 89900)) (VStr "5")]
  /\ ToNumber (VStr "5") = Fin 5
  /\ quantity <$> cart s <> [VNum (Fin 5)].
Proof. repeat split; [vm_compute; reflexivity .. | vm_compute; discriminate]. Qed.

(** C3, evaluated on the cart the previous call leaves.  Purchasing the BMW M3
    again finds the line and applies [quantity += 1] to the text ["5"]: the
    quantity becomes the text ["51"], not 6. *)
Theorem addToCart_after_typed_quantity :
  let s := perform_all [purchase_m3; UpdateQuantity (VNum (Fin 1)) (VStr "5");
                        purchase_m3] (start ∅ cart_page) in
  cart s = [mkLine (VNum (Fin 1)) (VStr "BMW M3") (VNum (Fin 89900)) (VStr "51")]
  /\ quantity <$> cart s <> [VNum (Fin 6)].
Proof. split; [vm_compute; reflexivity | vm_compute; discriminate]. Qed.

(** C6, evaluated on a sequence of calls from the empty cart.  The text ["-"]
    is not a number, so [updateQuantity(1, "-")] does not take the removal
    branch and stores it; the next purchase appends 1, and the cart holds a
    line with quantity ["-1"], which passes the test [quantity <= 0]. *)
Theorem quantity_invariant_broken_by_text :
  let s := perform_all [purchase_m3; UpdateQuantity (VNum (Fin 1)) (VStr "-");
                        purchase_m3] (start ∅ cart_page) in
  cart s = [mkLine (VNum (Fin 1)) (VStr "BMW M3") (VNum (Fin 89900)) (VStr "-1")]
  /\ existsb nonpositive (cart s) = true.
Proof. split; vm_compute; reflexivity. Qed.

(** *** With numbers only, quantities stay positive *)

Lemma update_found_Forall (P : CartLine -> Prop) (f : CartLine -> CartLine)
    (productId : value) (c : Cart) :
  (forall l, P l -> P (f l)) -> Forall P c -> Forall P (update_found productId f c).
Proof.
  intros Hf. induction 1 as [|l c Hl Hc IH]; [constructor |]. cbn [update_found].
  destruct (strict_eq (id l) productId); constructor; auto.
Qed.

Lemma number_quantity_bump (l : CartLine) : number_quantity l -> number_quantity (bump l).
Proof.
  intros (n & Hq & Hn). exists (num_add n (Fin 1)). split; [by apply bump_number |].
  destruct n as [| | |z]; try done. unfold num_le in *. simpl in *.
  apply orb_false_iff in Hn as [H1 H2]. apply orb_false_iff. split; lia.
Qed.

Lemma number_quantity_nonpositive (l : CartLine) :
  number_quantity l -> nonpositive l = false.
Proof. intros (n & Hq & Hn). unfold nonpositive. by rewrite Hq. Qed.

Lemma perform_number_quantity (o : op) (s : state) :
  numeric_op o -> Forall number_quantity (cart s) ->
  Forall number_quantity (cart (final (perform o s))).
Proof.
  intros Ho Hs. destruct o as [n p i | i | i q | b]; simpl.
  - rewrite cart_addToCart. destruct (find_line i (cart s)).
    + apply update_found_Forall; [apply number_quantity_bump | done].
    + apply Forall_app. split; [done |]. repeat constructor. by exists (Fin 1).
  - rewrite cart_removeFromCart. destruct (-1 <? findIndex i (cart s)); [| done].
    by apply Forall_delete.
  - destruct q as [q | t]; [| done].
    destruct (find_line i (cart s)) as [l|] eqn:Hfind.
    + destruct (js_le (VNum q) (VNum (Fin 0))) eqn:Hq.
      * rewrite updateQuantity_nonpositive by eauto.
        rewrite cart_removeFromCart. destruct (-1 <? findIndex i (cart s)); [| done].
        by apply Forall_delete.
      * rewrite cart_updateQuantity_positive by eauto.
        apply update_found_Forall; [| done]. intros l' _. by exists q.
    + by rewrite updateQuantity_missing.
  - destruct b.
    + destruct (cart_clearCart_confirmed s) as [-> _]. constructor.
    + done.
Qed.

(** The quantity invariant holds along every sequence of calls that passes
    numbers: no line ever passes the test [quantity <= 0]. *)
Lemma numeric_calls_keep_quantities_positive (ops : list op) (s : state) :
  Forall numeric_op ops -> Forall number_quantity (cart s) ->
  existsb nonpositive (cart (perform_all ops s)) = false.
Proof.
  intros Hops. revert s. induction Hops as [|o ops Ho Hops IH]; intros s Hs; simpl.
  - apply not_true_is_false. intros H. apply existsb_exists in H as (l & Hin & Hl).
    rewrite Forall_forall in Hs. apply list_elem_of_In in Hin.
    rewrite (number_quantity_nonpositive l) in Hl by auto. done.
  - apply IH. by apply perform_number_quantity.
Qed.

(* ===================================================================== *)
(** * Properties of the toast helper *)
(* ===================================================================== *)

Import Toast.

(** ** The event loop *)

Lemma run_idle (fuel : nat) (t : Z) (w : world) : idle t w -> run fuel t w = w.
Proof.
  unfold idle. destruct fuel, (timers w) as [|h q] eqn:E; simpl; rewrite ?E; try done.
  intros H. destruct (Z.leb_spec (due h) t); [lia | done].
Qed.

Lemma advance_idle (t : Z) (w : world) :
  idle t w ->
  advance_to t w = {| now := Z.max (now w) t; toast := toast w; timers := timers w |}.
Proof. intros H. unfold advance_to. by rewrite run_idle. Qed.

Lemma pending_enqueue (tm : timer) (q : list timer) :
  pending (enqueue tm q) = (weight tm + pending q)%nat.
Proof.
  unfold pending. induction q as [|h q IH]; [done |]. cbn [enqueue].
  destruct (due tm <? due h); csimpl; [done |]. rewrite IH. lia.
Qed.

Lemma pending_cons (h : timer) (q : list timer) :
  pending (h :: q) = (weight h + pending q)%nat.
Proof. reflexivity. Qed.

Lemma weight_pos (h : timer) : (1 <= weight h)%nat.
Proof. unfold weight. destruct (job h); lia. Qed.

(** The fuel [advance_to] gives the loop is enough: when it stops, nothing
    at the head of the queue is due any more. *)
Lemma run_settles (fuel : nat) (t : Z) (w : world) :
  (pending (timers w) <= fuel)%nat -> idle t (run fuel t w).
Proof.
  revert w. induction fuel as [|fuel IH]; intros w Hfuel.
  - unfold idle. simpl. destruct (timers w) as [|h q] eqn:E; [done |].
    rewrite pending_cons in Hfuel. pose proof (weight_pos h). lia.
  - simpl. destruct (timers w) as [|h q] eqn:E.
    + unfold idle. by rewrite E.
    + destruct (Z.leb_spec (due h) t) as [Hdue|Hdue].
      * apply IH. rewrite pending_cons in Hfuel. unfold weight in Hfuel.
        destruct (job h); simpl.
        -- rewrite pending_enqueue. unfold weight. simpl. lia.
        -- lia.
      * unfold idle. by rewrite E.
Qed.

Lemma advance_to_settles (t : Z) (w : world) : idle t (advance_to t w).
Proof.
  pose proof (run_settles (pending (timers w)) t w (Nat.le_refl _)) as H.
  unfold advance_to, idle in *. done.
Qed.

(** ** One toast after another *)

Lemma showing_shown (message : string) (w : world) (el : element) :
  toast w = Some (shown message el) -> showing message w.
Proof.
  intros H. exists (shown message el). unfold shown, set_style. simpl.
  repeat split; [done | |].
  - rewrite lookup_insert_ne by done. apply lookup_insert_eq.
  - do 2 (rewrite lookup_insert_ne by done). apply lookup_insert_eq.
Qed.

(** C8, refuted as stated.  A toast of 2500 ms at time 0 and a second one of
    2500 ms at time 2000: the second message is on screen at once, but at
    time 2500, only 500 ms later, the first call's timer fades the toast, and
    at 2720 it is taken off the page although nothing was due before 4500. *)
Lemma second_toast_cut_short :
  let w := Toast.showToast "B" 2500
             (advance_to 2000 (Toast.showToast "A" 2500 (fresh 0))) in
  showing "B" w /\
  2500 < 2000 + 2500 /\
  faded (advance_to 2500 w) /\
  ~ showing "B" (advance_to 2500 w) /\
  (style <$> toast (advance_to 2720 w)) ≫= (.!! "display") = Some "none".
Proof.
  intros w. split; [| split; [lia | split; [| split]]].
  - eexists. repeat split.
  - eexists. split; [vm_compute; reflexivity |]. reflexivity.
  - intros (el & Ht & _ & Ho & _). vm_compute in Ht.
    injection Ht as <-. vm_compute in Ho. discriminate.
  - vm_compute. reflexivity.
Qed.

(** ** The queue *)

Lemma enqueue_perm (tm : timer) (q : list timer) : enqueue tm q ≡ₚ tm :: q.
Proof.
  induction q as [|h q IH]; [done |]. simpl.
  destruct (due tm <? due h); [done |]. rewrite IH. apply Permutation_swap.
Qed.

Lemma Forall_enqueue (P : timer -> Prop) (tm : timer) (q : list timer) :
  P tm -> Forall P q -> Forall P (enqueue tm q).
Proof. intros Htm Hq. rewrite enqueue_perm. by constructor. Qed.

(** [setTimeout] keeps the queue in firing order. *)
Lemma sorted_enqueue (tm : timer) (q : list timer) :
  sorted q -> sorted (enqueue tm q).
Proof.
  induction q as [|h q IH]; intros Hq; [by repeat constructor |].
  destruct Hq as [Hh Hq]. cbn [enqueue].
  destruct (Z.ltb_spec (due tm) (due h)) as [Hlt|Hge]; cbn [sorted].
  - repeat split; [| done | done]. constructor; [lia |].
    eapply Forall_impl; [exact Hh |]. simpl. intros. lia.
  - split; [| by apply IH]. by apply Forall_enqueue.
Qed.

Lemma sorted_showToast (message : string) (duration : Z) (w : world) :
  sorted (timers w) -> sorted (timers (Toast.showToast message duration w)).
Proof. apply sorted_enqueue. Qed.

Lemma sorted_run (fuel : nat) (t : Z) (w : world) :
  sorted (timers w) -> sorted (timers (run fuel t w)).
Proof.
  revert w. induction fuel as [|fuel IH]; intros w Hw; [done |]. cbn [run].
  destruct (timers w) as [|h q] eqn:E; [by rewrite E |].
  destruct (due h <=? t); [| by rewrite E].
  apply IH. destruct Hw as [_ Hq]. destruct (job h); simpl; [| done].
  by apply sorted_enqueue.
Qed.

Lemma sorted_advance_to (t : Z) (w : world) :
  sorted (timers w) -> sorted (timers (advance_to t w)).
Proof. apply sorted_run. Qed.

(** Whatever has happened on the page, the queue is in firing order. *)
Lemma sorted_play (history : list event) (w : world) :
  sorted (timers w) -> sorted (timers (play history w)).
Proof.
  revert w. induction history as [|e history IH]; intros w Hw; [done |].
  apply IH. destruct e; [by apply sorted_showToast | by apply sorted_advance_to].
Qed.

(** ** What the callbacks leave behind *)

Lemma run_fire (fuel : nat) (t : Z) (w : world) (h : timer) (q : list timer) :
  timers w = h :: q -> due h <= t ->
  run (S fuel) t w =
  run fuel t
    (run_task (job h)
       {| now := Z.max (now w) (due h); toast := toast w; timers := q |}).
Proof.
  intros Hq Hdue. cbn [run]. rewrite Hq.
  destruct (Z.leb_spec (due h) t); [done | lia].
Qed.

(** No callback brings a faded toast back, and none puts a toast back on
    the page. *)
Lemma faded_run_task (j : task) (w : world) : faded w -> faded (run_task j w).
Proof.
  intros (el & Hel & Ho). destruct j; simpl; unfold faded; simpl; rewrite Hel; simpl.
  - eexists. split; [done |]. apply lookup_insert_eq.
  - eexists. split; [done |]. simpl. by rewrite lookup_insert_ne.
Qed.

Lemma faded_run (fuel : nat) (t : Z) (w : world) : faded w -> faded (run fuel t w).
Proof.
  revert w. induction fuel as [|fuel IH]; intros w Hw; [done |]. cbn [run].
  destruct (timers w) as [|h q]; [done |].
  destruct (due h <=? t); [| done].
  apply IH, faded_run_task. exact Hw.
Qed.

Lemma removed_run_task (j : task) (w : world) : removed w -> removed (run_task j w).
Proof.
  intros (el & Hel & Hd). destruct j; simpl; unfold removed; simpl; rewrite Hel; simpl.
  - eexists. split; [done |]. simpl. by rewrite lookup_insert_ne.
  - eexists. split; [done |]. apply lookup_insert_eq.
Qed.

Lemma removed_run (fuel : nat) (t : Z) (w : world) :
  removed w -> removed (run fuel t w).
Proof.
  revert w. induction fuel as [|fuel IH]; intros w Hw; [done |]. cbn [run].
  destruct (timers w) as [|h q]; [done |].
  destruct (due h <=? t); [| done].
  apply IH, removed_run_task. exact Hw.
Qed.

Lemma faded_not_showing (message : string) (w : world) :
  faded w -> ~ showing message w.
Proof.
  intros (el & Hel & Ho) (el' & Hel' & _ & Ho' & _).
  rewrite Hel in Hel'. injection Hel' as <-. rewrite Ho in Ho'. discriminate.
Qed.

Lemma removed_not_showing (message : string) (w : world) :
  removed w -> ~ showing message w.
Proof.
  intros (el & Hel & Hd) (el' & Hel' & _ & _ & Hd').
  rewrite Hel in Hel'. injection Hel' as <-. rewrite Hd in Hd'. discriminate.
Qed.

(** Once the first pending timer is due, its callback has run: a fade-out
    leaves the toast faded, the second stage of a fade leaves it off the
    page, whatever runs after it. *)
Lemma advance_fires (t : Z) (w : world) (h : timer) (q : list timer) (el : element) :
  timers w = h :: q -> due h <= t -> toast w = Some el ->
  match job h with
  | FadeOut => faded (advance_to t w)
  | Unmount => removed (advance_to t w)
  end.
Proof.
  intros Hq Hdue Hel.
  assert (exists fuel, pending (timers w) = S fuel) as [fuel Hfuel].
  { rewrite Hq, pending_cons. pose proof (weight_pos h).
    destruct (weight h + pending q)%nat as [|n] eqn:E; [lia | by exists n]. }
  unfold advance_to. rewrite Hfuel, (run_fire fuel t w h q) by done.
  destruct (job h).
  - assert (faded (run fuel t (run_task FadeOut
              {| now := Z.max (now w) (due h); toast := toast w; timers := q |})))
      as (el' & Hel' & Ho).
    { apply faded_run. unfold faded. simpl. rewrite Hel. simpl.
      eexists. split; [done |]. apply lookup_insert_eq. }
    by exists el'.
  - assert (removed (run fuel t (run_task Unmount
              {| now := Z.max (now w) (due h); toast := toast w; timers := q |})))
      as (el' & Hel' & Hd).
    { apply removed_run. unfold removed. simpl. rewrite Hel. simpl.
      eexists. split; [done |]. apply lookup_insert_eq. }
    by exists el'.
Qed.

(** A call on a page whose queue is in firing order: the message is up until
    the first pending timer, old or new, comes due. *)
Lemma showToast_over_pending (w : world) (message : string) (duration : Z) :
  sorted (timers w) ->
  let hide := now w + Z.max 0 duration in
  let w' := Toast.showToast message duration w in
  exists first rest,
    timers w' = first :: rest /\
    first :: rest ≡ₚ mkTimer hide FadeOut :: timers w /\
    Forall (fun tm => due first <= due tm) rest /\
    due first <= hide /\
    (due first = hide <-> Forall (fun tm => hide <= due tm) (timers w)) /\
    showing message w' /\
    (forall t, t < due first -> showing message (advance_to t w')) /\
    (forall t, due first <= t ->
       ~ showing message (advance_to t w') /\
       match job first with
       | FadeOut => faded (advance_to t w')
       | Unmount => removed (advance_to t w')
       end).
Proof.
  intros Hsorted hide w'.
  set (el0 := match toast w with Some el => el | None => created end).
  assert (Hq : timers w' = enqueue (mkTimer hide FadeOut) (timers w)) by done.
  assert (Hel : toast w' = Some (shown message el0)) by done.
  assert (exists first rest,
            enqueue (mkTimer hide FadeOut) (timers w) = first :: rest /\
            due first <= hide /\
            (due first = hide <-> Forall (fun tm => hide <= due tm) (timers w)))
    as (first & rest & Hfr & Hle & Hiff).
  { destruct (timers w) as [|h q] eqn:E; cbn [enqueue due].
    - eexists _, _. split; [done |]. simpl. split; [lia |]. split; [done | done].
    - destruct Hsorted as [Hh _].
      destruct (Z.ltb_spec hide (due h)) as [Hlt|Hge].
      + eexists _, _. split; [done |]. simpl. split; [lia |].
        split; [| done]. intros _. constructor; [lia |].
        eapply Forall_impl; [exact Hh |]. simpl. intros. lia.
      + eexists _, _. split; [done |]. split; [lia |]. split.
        * intros Heq. constructor; [lia |].
          eapply Forall_impl; [exact Hh |]. simpl. intros. lia.
        * intros Hall. apply Forall_cons in Hall as [Hhd _]. lia. }
  exists first, rest. rewrite Hq, Hfr.
  pose proof (sorted_enqueue (mkTimer hide FadeOut) (timers w) Hsorted) as Hs.
  rewrite Hfr in Hs. destruct Hs as [Hmin _].
  split; [done |]. split; [by rewrite <- Hfr, enqueue_perm |].
  split; [done |]. split; [done |]. split; [done |].
  split; [by eapply showing_shown |]. split.
  - intros t Ht. eapply showing_shown. rewrite advance_idle.
    + simpl. exact Hel.
    + unfold idle. by rewrite Hq, Hfr.
  - intros t Ht.
    pose proof (advance_fires t w' first rest _ (eq_trans Hq Hfr) Ht Hel) as H.
    split; [| exact H].
    destruct (job first);
      [by apply faded_not_showing | by apply removed_not_showing].
Qed.

(** C8, as the code has it.  Whatever calls were made before and however
    much time has passed, so also while a toast of an earlier call is up, a
    call replaces the message and shows the toast again.  It cancels no
    timer: the queue afterwards holds its own fade-out, due [duration]
    milliseconds after the call, together with every timer that was pending.
    The message stays on screen until the first of them all comes due,
    whichever call set it, and from that moment it is not: that timer has
    faded the toast, or, being the second stage of an earlier fade, has taken
    it off the page.  The message gets its full duration exactly when no
    pending timer was due sooner. *)
Theorem showToast_again_while_visible (t0 : Z) (history : list event)
    (message : string) (duration : Z) :
  let w := play history (fresh t0) in
  let hide := now w + Z.max 0 duration in
  let w' := Toast.showToast message duration w in
  exists first rest,
    timers w' = first :: rest /\
    first :: rest ≡ₚ mkTimer hide FadeOut :: timers w /\
    Forall (fun tm => due first <= due tm) rest /\
    due first <= hide /\
    (due first = hide <-> Forall (fun tm => hide <= due tm) (timers w)) /\
    showing message w' /\
    (forall t, t < due first -> showing message (advance_to t w')) /\
    (forall t, due first <= t ->
       ~ showing message (advance_to t w') /\
       match job first with
       | FadeOut => faded (advance_to t w')
       | Unmount => removed (advance_to t w')
       end).
Proof.
  intros w. apply showToast_over_pending. by apply sorted_play.
Qed.

(** C8, as the code has it, at three purchases in a row: toasts A at 0, B at
    1000 and C at 2000, of 2500 ms each.  When C is shown the fade-outs of A
    and B are still pending, due at 2500 and 3500.  C is on screen until
    2500 and faded from then on, 2000 ms before its own timer is due. *)
Lemma showToast_again_while_visible_witness :
  let history := [Call "A" 2500; Wait 1000; Call "B" 2500; Wait 2000] in
  let w' := Toast.showToast "C" 2500 (play history (fresh 0)) in
  showing "C" w' /\
  (forall t, t < 2500 -> showing "C" (advance_to t w')) /\
  (forall t, 2500 <= t -> ~ showing "C" (advance_to t w') /\ faded (advance_to t w')).
Proof.
  intros history w'.
  destruct (showToast_again_while_visible 0 history "C" 2500)
    as (first & rest & Hq & _ & _ & _ & _ & Hshow & Hbefore & Hafter).
  vm_compute in Hq. injection Hq as <- <-.
  split; [exact Hshow |]. split; [exact Hbefore | exact Hafter].
Defined.

(* ===================================================================== *)
(** * Properties of the price filter *)
(* ===================================================================== *)

Lemma parseInt_empty : parseInt EmptyString = NaN.
Proof. reflexivity. Qed.

(** With no upper bound, the price test is the test against the minimum. *)
Lemma matchesPrice_unbounded (lo : num) (c : card) :
  matchesPrice lo PInf c = num_ge (parseInt (data_price c)) lo.
Proof.
  unfold matchesPrice, num_ge, num_le.
  destruct (parseInt (data_price c)) as [| | |p], lo as [| | |l]; simpl; try done;
    by rewrite andb_true_r.
Qed.

Lemma matchesSearch_empty (c : card) : matchesSearch EmptyString c = true.
Proof. unfold matchesSearch. simpl. apply orb_true_r. Qed.

(** C10.  A maximum-price box that is empty, holds no number, or holds 0
    makes the upper bound Infinity.  The filter then hides a card exactly
    when it fails the search or its price is below the minimum; with an empty
    search box every card priced at or above the minimum stays on screen.  In
    the same way an empty or numberless minimum-price box makes the lower
    bound 0. *)
Theorem max_price_blank_or_zero_is_unbounded (pg : shop) :
  blank_or_zero (maxPrice pg) ->
  let term := toLowerCase (searchInput pg) in
  let lo := min_bound (minPrice pg) in
  max_bound (maxPrice pg) = PInf /\
  productCards (filterProducts pg) = filter_card term lo PInf <$> productCards pg /\
  (forall c, visible (filter_card term lo PInf c) =
             matchesSearch term c && num_ge (parseInt (data_price c)) lo) /\
  (forall c, searchInput pg = EmptyString ->
             num_ge (parseInt (data_price c)) lo = true ->
             visible (filter_card term lo PInf c) = true) /\
  (blank (minPrice pg) -> lo = Fin 0).
Proof.
  intros Hmax term lo.
  assert (Hhi : max_bound (maxPrice pg) = PInf).
  { unfold max_bound, num_or. destruct Hmax as [[-> | ->] | ->]; done. }
  assert (Hvis : forall c, visible (filter_card term lo PInf c) =
                           matchesSearch term c && num_ge (parseInt (data_price c)) lo).
  { intros c. unfold visible, filter_card. simpl.
    by rewrite negb_involutive, matchesPrice_unbounded. }
  split; [exact Hhi |]. split; [| split; [exact Hvis | split]].
  - unfold filterProducts. simpl. by rewrite Hhi.
  - intros c Hs Hp. rewrite Hvis, Hp. unfold term. rewrite Hs. simpl.
    by rewrite matchesSearch_empty.
  - unfold lo, min_bound, num_or. by intros [-> | ->].
Qed.

(** C10, with 0 typed into the maximum-price box and nothing else set: both
    cards stay on screen. *)
Lemma max_price_blank_or_zero_is_unbounded_witness :
  let pg := {| searchInput := EmptyString; minPrice := EmptyString; maxPrice := "0";
               productCards := [mkCard "BMW M3" "89900" true;
                                mkCard "BMW M5" "120000" false];
               console := [] |} in
  max_bound (maxPrice pg) = PInf /\
  productCards (filterProducts pg) =
    [mkCard "BMW M3" "89900" false; mkCard "BMW M5" "120000" false].
Proof.
  intros pg.
  destruct (max_price_blank_or_zero_is_unbounded pg) as (Hhi & Hcards & _).
  - right. reflexivity.
  - split; [exact Hhi |]. rewrite Hcards. reflexivity.
Defined.

(** The three kinds of box content the claim names. *)
Example blank_or_zero_cases :
  blank_or_zero EmptyString /\ blank_or_zero "abc" /\ blank_or_zero "0" /\
  max_bound "100000" = Fin 100000.
Proof.
  split; [left; left | split; [left; right | split; [right |]]]; reflexivity.
Qed.

(** A maximum that reads as a number other than 0 does bound the price. *)
Example affordable_hides_m5 :
  hidden <$> productCards
    (quickFilter "affordable"
       {| searchInput := "m5"; minPrice := "5"; maxPrice := EmptyString;
          productCards := [mkCard "BMW M3" "89900" false;
                           mkCard "BMW M5" "120000" false];
          console := [] |}) = [false; true].
Proof. vm_compute. reflexivity. Qed.

(* ===================================================================== *)
(** * More on cart.js: lines, ids and the page *)
(* ===================================================================== *)

(** ** Ids *)

Lemma num_eqb_eq (a b : num) : num_eqb a b = true -> a = b.
Proof. destruct a, b; simpl; try done. intros H. f_equal. lia. Qed.

(** [===] holds only between equal values. *)
Lemma strict_eq_eq (a b : value) : strict_eq a b = true -> a = b.
Proof.
  destruct a as [x|x], b as [y|y]; simpl; try done.
  - intros H. f_equal. by apply num_eqb_eq.
  - intros H. f_equal. by apply String.eqb_eq.
Qed.

Lemma strict_eq_sym (a b : value) : strict_eq a b = strict_eq b a.
Proof.
  destruct a as [x|x], b as [y|y]; simpl; try done.
  - destruct x, y; simpl; try done. apply Z.eqb_sym.
  - apply String.eqb_sym.
Qed.

Lemma find_line_None (productId : value) (c : Cart) :
  find_line productId c = None <->
  existsb (fun x => strict_eq (id x) productId) c = false.
Proof.
  unfold find_line. induction c as [|l c IH]; simpl; [done |].
  destruct (strict_eq (id l) productId); simpl; [split; discriminate | exact IH].
Qed.

Lemma find_line_Some (productId : value) (c : Cart) (l : CartLine) :
  find_line productId c = Some l ->
  exists pre post, c = pre ++ l :: post /\ find_line productId pre = None /\
                   strict_eq (id l) productId = true.
Proof.
  unfold find_line. induction c as [|x c IH]; simpl; [done |].
  destruct (strict_eq (id x) productId) eqn:E.
  - intros [= <-]. exists [], c. done.
  - intros H. destruct (IH H) as (pre & post & -> & Hpre & Hl).
    exists (x :: pre), post. simpl. by rewrite E.
Qed.

(** [findIndex] on a cart split at its first line with the id. *)
Lemma findIndex_split (productId : value) (pre post : Cart) (l : CartLine) :
  find_line productId pre = None -> strict_eq (id l) productId = true ->
  findIndex productId (pre ++ l :: post) = Z.of_nat (length pre).
Proof.
  unfold find_line. intros Hpre Hl. induction pre as [|x pre IH]; simpl in *.
  - by rewrite Hl.
  - destruct (strict_eq (id x) productId); [done |]. rewrite IH by done.
    destruct (Z.ltb_spec (Z.of_nat (length pre)) 0); lia.
Qed.

Lemma findIndex_None (productId : value) (c : Cart) :
  find_line productId c = None -> findIndex productId c = -1.
Proof.
  unfold find_line. induction c as [|x c IH]; simpl; [done |].
  destruct (strict_eq (id x) productId); [done |]. intros H. by rewrite IH.
Qed.

Lemma delete_middle (pre post : Cart) (l : CartLine) :
  delete (length pre) (pre ++ l :: post) = pre ++ post.
Proof. induction pre as [|x pre IH]; simpl; [done | by rewrite IH]. Qed.

(** X1.  [removeFromCart(productId)] takes out the first line whose id is
    [===] to the argument and nothing else: the lines before and after it
    stay, in order.  When no line has the id the cart is left as it is. *)
Theorem removeFromCart_first_match (productId : value) (s : state) :
  let c' := cart (final (removeFromCart productId s)) in
  (find_line productId (cart s) = None -> c' = cart s) /\
  (forall l, find_line productId (cart s) = Some l ->
     exists pre post, cart s = pre ++ l :: post /\
                      find_line productId pre = None /\ c' = pre ++ post).
Proof.
  intros c'. subst c'. rewrite cart_removeFromCart. split.
  - intros H. by rewrite (findIndex_None _ _ H).
  - intros l H. destruct (find_line_Some _ _ _ H) as (pre & post & E & Hpre & Hl).
    exists pre, post. split; [done |]. split; [done |].
    rewrite E, (findIndex_split _ _ _ _ Hpre Hl).
    destruct (Z.ltb_spec (-1) (Z.of_nat (length pre))); [| lia].
    by rewrite Nat2Z.id, delete_middle.
Qed.

Lemma removeFromCart_first_match_witness :
  let m4 := mkLine (VNum (Fin 2)) (VStr "BMW M4") (VNum (Fin 95000)) (VNum (Fin 1)) in
  let m3 := mkLine (VNum (Fin 1)) (VStr "BMW M3") (VNum (Fin 89900)) (VNum (Fin 2)) in
  let m5 := mkLine (VNum (Fin 3)) (VStr "BMW M5") (VNum (Fin 120000)) (VNum (Fin 1)) in
  let s := {| cart := [m4; m3; m5]; localStorage := ∅; dom := cart_page;
              toasts := Toast.fresh 0; trace := [] |} in
  exists pre post, cart s = pre ++ m3 :: post /\
                   find_line (VNum (Fin 1)) pre = None /\
                   cart (final (removeFromCart (VNum (Fin 1)) s)) = pre ++ post.
Proof.
  intros m4 m3 m5 s.
  apply (removeFromCart_first_match (VNum (Fin 1)) s). reflexivity.
Defined.

(** ** Unique ids *)

Lemma existsb_id_update_found (g : CartLine -> bool) (f : CartLine -> CartLine)
    (productId : value) (c : Cart) :
  (forall l, g (f l) = g l) ->
  existsb g (update_found productId f c) = existsb g c.
Proof.
  intros Hg. induction c as [|l c IH]; [done |]. cbn [update_found].
  destruct (strict_eq (id l) productId); simpl; [by rewrite Hg | by rewrite IH].
Qed.

Lemma unique_ids_update_found (f : CartLine -> CartLine) (productId : value)
    (c : Cart) :
  (forall l, id (f l) = id l) ->
  unique_ids (update_found productId f c) = unique_ids c.
Proof.
  intros Hf. induction c as [|l c IH]; [done |]. cbn [update_found].
  destruct (strict_eq (id l) productId); simpl.
  - by rewrite Hf.
  - rewrite IH. f_equal. f_equal. apply existsb_id_update_found.
    intros x. by rewrite Hf.
Qed.

Lemma unique_ids_snoc (c : Cart) (l : CartLine) :
  find_line (id l) c = None -> unique_ids c = true -> unique_ids (c ++ [l]) = true.
Proof.
  rewrite find_line_None. induction c as [|x c IH]; simpl; [done |].
  intros Hx Hc. apply orb_false_iff in Hx as [Hx1 Hx2].
  apply andb_true_iff in Hc as [Hc1 Hc2].
  rewrite existsb_app. simpl. rewrite strict_eq_sym, Hx1, orb_false_r.
  rewrite Hc1. simpl. by apply IH.
Qed.

Lemma existsb_delete (g : CartLine -> bool) (i : nat) (c : Cart) :
  existsb g c = false -> existsb g (delete i c) = false.
Proof.
  revert i. induction c as [|x c IH]; intros i; [by destruct i |].
  simpl. intros H. apply orb_false_iff in H as [H1 H2].
  destruct i; simpl; [done |]. rewrite H1. simpl. by apply IH.
Qed.

Lemma unique_ids_delete (i : nat) (c : Cart) :
  unique_ids c = true -> unique_ids (delete i c) = true.
Proof.
  revert i. induction c as [|x c IH]; intros i; [by destruct i |].
  simpl. intros H. apply andb_true_iff in H as [H1 H2].
  destruct i; simpl; [done |].
  apply negb_true_iff in H1. rewrite (existsb_delete _ _ _ H1). simpl.
  by apply IH.
Qed.

Lemma cart_updateQuantity (productId newQuantity : value) (s : state) :
  cart (final (updateQuantity productId newQuantity s)) =
  match find_line productId (cart s) with
  | None => cart s
  | Some _ =>
      if js_le newQuantity (VNum (Fin 0))
      then cart (final (removeFromCart productId s))
      else update_found productId (with_quantity newQuantity) (cart s)
  end.
Proof.
  destruct (find_line productId (cart s)) as [l|] eqn:Hfind.
  - destruct (js_le newQuantity (VNum (Fin 0))) eqn:Hq.
    + rewrite updateQuantity_nonpositive by eauto. done.
    + by rewrite cart_updateQuantity_positive by eauto.
  - by rewrite updateQuantity_missing.
Qed.

Lemma perform_unique_ids (o : op) (s : state) :
  unique_ids (cart s) = true -> unique_ids (cart (final (perform o s))) = true.
Proof.
  intros Hs. destruct o as [n p i | i | i q | b]; simpl.
  - rewrite cart_addToCart. destruct (find_line i (cart s)) eqn:Hfind.
    + by rewrite unique_ids_update_found.
    + by apply unique_ids_snoc.
  - rewrite cart_removeFromCart. destruct (-1 <? findIndex i (cart s)); [| done].
    by apply unique_ids_delete.
  - rewrite cart_updateQuantity. destruct (find_line i (cart s)); [| done].
    destruct (js_le q (VNum (Fin 0))).
    + rewrite cart_removeFromCart. destruct (-1 <? findIndex i (cart s)); [| done].
      by apply unique_ids_delete.
    + by rewrite unique_ids_update_found.
  - destruct b; [| done]. by destruct (cart_clearCart_confirmed s) as [-> _].
Qed.

(** X2.  Whatever calls are made and whatever they are given, a cart in which
    no two lines share an id stays that way; in particular every cart built
    up from the empty one has at most one line per id. *)
Theorem unique_ids_kept (ops : list op) (s : state) :
  unique_ids (cart s) = true -> unique_ids (cart (perform_all ops s)) = true.
Proof.
  revert s. induction ops as [|o ops IH]; intros s Hs; simpl; [done |].
  by apply IH, perform_unique_ids.
Qed.

Lemma unique_ids_kept_witness :
  unique_ids
    (cart (perform_all
             [purchase_m3; AddToCart (VStr "BMW M4") (VNum (Fin 95000)) (VNum (Fin 2));
              UpdateQuantity (VNum (Fin 1)) (VStr "5"); purchase_m3;
              RemoveFromCart (VNum (Fin 2)); purchase_m3]
             (start ∅ cart_page))) = true.
Proof. apply unique_ids_kept. reflexivity. Defined.

(** X3.  On a cart with unique ids, [removeFromCart(productId)] leaves no
    line with that id. *)
Theorem removeFromCart_unique_gone (productId : value) (s : state) :
  unique_ids (cart s) = true ->
  find_line productId (cart (final (removeFromCart productId s))) = None.
Proof.
  intros Hu. rewrite cart_removeFromCart.
  destruct (find_line productId (cart s)) as [l|] eqn:Hfind.
  - destruct (find_line_Some _ _ _ Hfind) as (pre & post & E & Hpre & Hl).
    rewrite E, (findIndex_split _ _ _ _ Hpre Hl).
    destruct (Z.ltb_spec (-1) (Z.of_nat (length pre))) as [_|?]; [| lia].
    rewrite Nat2Z.id, delete_middle. apply find_line_None.
    rewrite existsb_app. apply find_line_None in Hpre. rewrite Hpre. simpl.
    rewrite E in Hu. clear E Hfind Hpre. induction pre as [|x pre IH].
    + simpl in Hu. apply andb_true_iff in Hu as [Hu _].
      apply negb_true_iff in Hu. apply strict_eq_eq in Hl. by rewrite <- Hl.
    + apply IH. simpl in Hu. by apply andb_true_iff in Hu as [_ Hu].
  - rewrite (findIndex_None _ _ Hfind). done.
Qed.

Lemma removeFromCart_unique_gone_witness :
  find_line (VNum (Fin 1))
    (cart (final (removeFromCart (VNum (Fin 1))
                    (perform_all [purchase_m3; purchase_m3] (start ∅ cart_page)))))
  = None.
Proof. apply removeFromCart_unique_gone. reflexivity. Defined.

(** ** Adding and removing *)

Lemma find_line_snoc (productId : value) (c : Cart) (l : CartLine) :
  find_line productId c = None ->
  find_line productId (c ++ [l]) =
  if strict_eq (id l) productId then Some l else None.
Proof.
  unfold find_line. induction c as [|x c IH]; simpl; [done |].
  destruct (strict_eq (id x) productId); [done | exact IH].
Qed.

Lemma update_found_snoc (productId : value) (f : CartLine -> CartLine)
    (c : Cart) (l : CartLine) :
  find_line productId c = None -> strict_eq (id l) productId = true ->
  update_found productId f (c ++ [l]) = c ++ [f l].
Proof.
  unfold find_line. intros Hc Hl. induction c as [|x c IH]; simpl in *.
  - by rewrite Hl.
  - destruct (strict_eq (id x) productId); [done |]. by rewrite IH.
Qed.

(** X4.  Adding a product the cart does not hold and removing it again gives
    back the cart as it was, provided the id is [===] to itself.  With an id
    that is not (NaN), the added line cannot be found again: the removal
    changes nothing and the line stays. *)
Theorem addToCart_then_removeFromCart (productName productPrice productId : value)
    (s : state) :
  find_line productId (cart s) = None ->
  let s1 := final (addToCart productName productPrice productId s) in
  let c2 := cart (final (removeFromCart productId s1)) in
  (strict_eq productId productId = true -> c2 = cart s) /\
  (strict_eq productId productId = false ->
     c2 = cart s ++ [mkLine productId productName productPrice (VNum (Fin 1))]).
Proof.
  intros Hfind s1 c2. subst c2 s1.
  rewrite cart_removeFromCart, cart_addToCart, Hfind.
  set (l := mkLine productId productName productPrice (VNum (Fin 1))).
  split; intros Hid.
  - rewrite <- (app_nil_r (cart s ++ [l])), <- app_assoc. simpl.
    rewrite (findIndex_split productId (cart s) [] l Hfind Hid).
    destruct (Z.ltb_spec (-1) (Z.of_nat (length (cart s)))); [| lia].
    by rewrite Nat2Z.id, delete_middle, app_nil_r.
  - rewrite findIndex_None; [done |].
    rewrite find_line_snoc by done. simpl. by rewrite Hid.
Qed.

Lemma addToCart_then_removeFromCart_witness :
  let s := perform_all [purchase_m3] (start ∅ cart_page) in
  cart (final (removeFromCart (VNum (Fin 2))
                 (final (addToCart (VStr "BMW M4") (VNum (Fin 95000))
                           (VNum (Fin 2)) s)))) = cart s
  /\ cart (final (removeFromCart (VNum NaN)
                    (final (addToCart (VStr "BMW M4") (VNum (Fin 95000))
                              (VNum NaN) s)))) =
     cart s ++ [mkLine (VNum NaN) (VStr "BMW M4") (VNum (Fin 95000)) (VNum (Fin 1))].
Proof.
  intros s. split.
  - apply (addToCart_then_removeFromCart (VStr "BMW M4") (VNum (Fin 95000))
             (VNum (Fin 2)) s); reflexivity.
  - apply (addToCart_then_removeFromCart (VStr "BMW M4") (VNum (Fin 95000))
             (VNum NaN) s); reflexivity.
Defined.

Lemma purchases_accumulate (productName productPrice productId : value)
    (n : nat) (k : Z) (c : Cart) (s : state) :
  find_line productId c = None -> strict_eq productId productId = true ->
  cart s = c ++ [mkLine productId productName productPrice (VNum (Fin k))] ->
  cart (perform_all (replicate n (AddToCart productName productPrice productId)) s)
  = c ++ [mkLine productId productName productPrice (VNum (Fin (k + Z.of_nat n)))].
Proof.
  intros Hc Hid. revert k s. induction n as [|n IH]; intros k s Hs.
  - simpl. by rewrite Hs, Z.add_0_r.
  - cbn [replicate perform_all perform]. rewrite (IH (k + 1)).
    + by replace (k + 1 + Z.of_nat n) with (k + Z.of_nat (S n)) by lia.
    + rewrite cart_addToCart, Hs, find_line_snoc by done. simpl. rewrite Hid.
      by rewrite update_found_snoc.
Qed.

(** X5.  Purchasing the same product [n] times, [n] at least 1, from a cart
    that does not hold it adds one line, with quantity [n]; the lines already
    there are not touched. *)
Theorem repeated_purchase_one_line (productName productPrice productId : value)
    (n : nat) (s : state) :
  find_line productId (cart s) = None -> strict_eq productId productId = true ->
  (0 < n)%nat ->
  cart (perform_all (replicate n (AddToCart productName productPrice productId)) s)
  = cart s ++ [mkLine productId productName productPrice (VNum (Fin (Z.of_nat n)))].
Proof.
  intros Hfind Hid Hn. destruct n as [|n]; [lia |].
  cbn [replicate perform_all perform].
  rewrite (purchases_accumulate productName productPrice productId n 1 (cart s));
    try done.
  - by replace (1 + Z.of_nat n) with (Z.of_nat (S n)) by lia.
  - by rewrite cart_addToCart, Hfind.
Qed.

Lemma repeated_purchase_one_line_witness :
  cart (perform_all (replicate 7 purchase_m3) (start ∅ cart_page)) =
  [mkLine (VNum (Fin 1)) (VStr "BMW M3") (VNum (Fin 89900)) (VNum (Fin 7))].
Proof.
  apply (repeated_purchase_one_line (VStr "BMW M3") (VNum (Fin 89900))
           (VNum (Fin 1)) 7 (start ∅ cart_page)); [reflexivity | reflexivity | lia].
Defined.

(** ** What reaches the page *)

Lemma logged_nil (s : state) : logged [] s = s.
Proof. destruct s. unfold logged. simpl. by rewrite app_nil_r. Qed.

Lemma logged_logged (a b : list effect) (s : state) :
  logged b (logged a s) = logged (a ++ b) s.
Proof. unfold logged. simpl. by rewrite app_assoc. Qed.

Lemma displayCart_final (s : state) :
  final (displayCart s) = logged (display_effects (cart s) (dom s)) s.
Proof.
  unfold displayCart, display_effects, mbind, M_bind, get_dom, get_cart,
    calculateTotal, set_innerHTML, mret, M_ret.
  destruct (has_cart_items (dom s)), (cart s) as [|l c] eqn:E; simpl;
    rewrite ?logged_nil; try done.
  destruct (has_cart_total (dom s)); simpl; unfold logged; simpl;
    by rewrite ?E, <- ?app_assoc.
Qed.

Lemma displayCart_returned (s : state) : returned (displayCart s) = can_render s.
Proof.
  unfold displayCart, can_render, mbind, M_bind, get_dom, get_cart,
    calculateTotal, set_innerHTML, mret, M_ret.
  destruct (has_cart_items (dom s)), (cart s) as [|l c]; simpl; try done.
  by destruct (has_cart_total (dom s)).
Qed.

Lemma updateCartCount_run (s : state) :
  updateCartCount s = Returned tt (logged (badge_effects (cart s) (dom s)) s).
Proof.
  unfold updateCartCount, badge_effects, mbind, M_bind, get_dom, get_cart,
    mret, M_ret.
  destruct (has_cart_count (dom s)); simpl; [done | by rewrite logged_nil].
Qed.

Lemma render_final (s : state) :
  final ((displayCart;; updateCartCount) s) =
  logged (display_effects (cart s) (dom s) ++
          if can_render s then badge_effects (cart s) (dom s) else []) s.
Proof.
  pose proof (displayCart_final s) as Hf.
  pose proof (displayCart_returned s) as Hr.
  unfold mbind, M_bind. destruct (displayCart s) as [[] s'|e s']; simpl in *.
  - rewrite <- Hr, updateCartCount_run. simpl. rewrite Hf. simpl.
    by rewrite logged_logged.
  - rewrite <- Hr, Hf. by rewrite app_nil_r.
Qed.

Lemma render_returned (s : state) :
  returned ((displayCart;; updateCartCount) s) = can_render s.
Proof.
  pose proof (displayCart_returned s) as Hr.
  unfold mbind, M_bind. destruct (displayCart s) as [[] s'|e s']; simpl in *;
    [| done].
  by rewrite updateCartCount_run.
Qed.

Lemma removeFromCart_run (productId : value) (s : state) :
  removeFromCart productId s =
  (displayCart;; updateCartCount)
    (persisted (if -1 <? findIndex productId (cart s)
                then delete (Z.to_nat (findIndex productId (cart s))) (cart s)
                else cart s) s).
Proof.
  unfold removeFromCart, mbind at 1 2 3 4, M_bind, get_cart. simpl.
  by destruct (-1 <? findIndex productId (cart s)).
Qed.

Lemma clearCart_run (s : state) :
  clearCart true s = (displayCart;; updateCartCount) (persisted [] s).
Proof. reflexivity. Qed.

Lemma updateQuantity_run (productId newQuantity : value) (s : state) :
  is_Some (find_line productId (cart s)) ->
  js_le newQuantity (VNum (Fin 0)) = false ->
  updateQuantity productId newQuantity s =
  (displayCart;; updateCartCount)
    (persisted (update_found productId (with_quantity newQuantity) (cart s)) s).
Proof.
  intros [l H] Hq. unfold updateQuantity, mbind at 1, M_bind at 1, get_cart.
  by rewrite H, Hq.
Qed.

(** X6.  [displayCart()] returns exactly when the elements it writes to are
    on the page.  Without [#cart-items] it throws before writing anything;
    with a cart that has lines and no [#cart-total] it throws after the list
    has been written, leaving the list without its footer. *)
Theorem displayCart_needs_elements (s : state) :
  returned (displayCart s) = can_render s /\
  (has_cart_items (dom s) = false ->
     displayCart s = Threw (TypeError "cart-items") s) /\
  (has_cart_items (dom s) = true -> cart s <> [] ->
   has_cart_total (dom s) = false ->
     displayCart s =
     Threw (TypeError "cart-total")
       (logged [SetInnerHTML "cart-items" (CartItems (render_row <$> cart s))] s)).
Proof.
  split; [apply displayCart_returned |].
  unfold displayCart, mbind, M_bind, get_dom, get_cart, set_innerHTML.
  split.
  - intros ->. by destruct (cart s).
  - intros -> Hc ->. destruct (cart s) as [|l c] eqn:E; [done |]. simpl.
    unfold calculateTotal, mbind, M_bind, get_cart, mret, M_ret, throw, logged.
    simpl. by rewrite E.
Qed.

Lemma displayCart_needs_elements_witness :
  let s := perform_all [purchase_m3] (start ∅ (mkPage true false true)) in
  displayCart (start ∅ (mkPage false true true)) =
    Threw (TypeError "cart-items") (start ∅ (mkPage false true true))
  /\ displayCart s =
     Threw (TypeError "cart-total")
       (logged [SetInnerHTML "cart-items" (CartItems (render_row <$> cart s))] s).
Proof.
  intros s. split.
  - apply (displayCart_needs_elements (start ∅ (mkPage false true true))).
    reflexivity.
  - apply (displayCart_needs_elements s); [reflexivity | discriminate | reflexivity].
Defined.

(** X7.  Rendering is repeatable: a second [displayCart()] with no change in
    between writes exactly what the first one wrote, and ends the same way. *)
Theorem displayCart_twice (s : state) :
  let s1 := final (displayCart s) in
  exists written,
    s1 = logged written s /\
    final (displayCart s1) = logged (written ++ written) s /\
    returned (displayCart s1) = returned (displayCart s).
Proof.
  intros s1. exists (display_effects (cart s) (dom s)). subst s1.
  rewrite !displayCart_returned, !displayCart_final. simpl.
  split; [done |]. split; [apply logged_logged | done].
Qed.

Lemma display_effects_empty (pg : page) :
  forallb (fun e => negb (writes_total e)) (display_effects [] pg) = true.
Proof. unfold display_effects. by destruct (has_cart_items pg). Qed.

Lemma badge_effects_no_total (c : Cart) (pg : page) :
  forallb (fun e => negb (writes_total e)) (badge_effects c pg) = true.
Proof. unfold badge_effects. by destruct (has_cart_count pg). Qed.

Lemma render_empty_no_total (s : state) :
  cart s = [] ->
  exists more, final ((displayCart;; updateCartCount) s) = logged more s /\
               forallb (fun e => negb (writes_total e)) more = true.
Proof.
  intros E. eexists. split; [apply render_final |].
  rewrite forallb_app, E, display_effects_empty. simpl.
  destruct (can_render s); [apply badge_effects_no_total | done].
Qed.

(** X8.  No call that leaves the cart empty writes the total footer: after
    the last line is removed, or the cart is cleared, [#cart-total] keeps
    showing whatever it showed before. *)
Theorem empty_cart_keeps_old_total (o : op) (s : state) :
  cart (final (perform o s)) = [] ->
  exists more, trace (final (perform o s)) = trace s ++ more /\
               forallb (fun e => negb (writes_total e)) more = true.
Proof.
  assert (Hrender : forall c s0,
    cart (final ((displayCart;; updateCartCount) (persisted c s0))) = [] ->
    exists more,
      trace (final ((displayCart;; updateCartCount) (persisted c s0))) =
      trace s0 ++ more /\ forallb (fun e => negb (writes_total e)) more = true).
  { intros c s0 Hc.
    rewrite (cart_keeps (displayCart;; updateCartCount)) in Hc by apply keeps_render.
    destruct (render_empty_no_total (persisted c s0) Hc) as (more & -> & Hm).
    exists (SetItem "cart" (JSON_stringify c) :: more). simpl.
    by rewrite <- app_assoc. }
  destruct o as [n p i | i | i q | b]; simpl.
  - intros _. unfold addToCart, mbind, M_bind, emit, get_cart. simpl.
    destruct (find_line i (cart s)); simpl; rewrite updateCartCount_run; simpl;
      rewrite <- !app_assoc; (eexists; split; [reflexivity |]); simpl;
      apply badge_effects_no_total.
  - rewrite removeFromCart_run. apply Hrender.
  - destruct (find_line i (cart s)) as [l|] eqn:Hfind.
    + destruct (js_le q (VNum (Fin 0))) eqn:Hq.
      * rewrite updateQuantity_nonpositive by eauto.
        rewrite removeFromCart_run. apply Hrender.
      * rewrite updateQuantity_run by eauto. apply Hrender.
    + rewrite updateQuantity_missing by done. intros _. exists []. simpl.
      by rewrite app_nil_r.
  - destruct b.
    + rewrite clearCart_run. apply Hrender.
    + intros _. eexists. split; [reflexivity | done].
Qed.

Lemma empty_cart_keeps_old_total_witness :
  let s := perform_all [purchase_m3] (start ∅ cart_page) in
  exists more,
    trace (final (removeFromCart (VNum (Fin 1)) s)) = trace s ++ more /\
    forallb (fun e => negb (writes_total e)) more = true.
Proof.
  intros s. apply (empty_cart_keeps_old_total (RemoveFromCart (VNum (Fin 1))) s).
  vm_compute. reflexivity.
Defined.

Lemma render_throws (s : state) :
  has_cart_items (dom s) = false ->
  (displayCart;; updateCartCount) s = Threw (TypeError "cart-items") s.
Proof.
  intros H. unfold displayCart, mbind, M_bind, get_dom, get_cart, set_innerHTML.
  rewrite H. by destruct (cart s).
Qed.

(** X9.  On a page without [#cart-items] every call that re-renders throws
    at [displayCart()], so the badge update that follows it never runs: the
    load handler changes nothing, and [removeFromCart] and a confirmed
    [clearCart] stop right after the store has been written. *)
Theorem no_cart_items_no_badge_refresh (s : state) :
  has_cart_items (dom s) = false ->
  onLoad s = Threw (TypeError "cart-items") s /\
  (forall productId, exists c,
     removeFromCart productId s = Threw (TypeError "cart-items") (persisted c s)) /\
  clearCart true s = Threw (TypeError "cart-items") (persisted [] s).
Proof.
  intros H. split; [by apply render_throws |]. split.
  - intros productId. eexists. rewrite removeFromCart_run. by apply render_throws.
  - rewrite clearCart_run. by apply render_throws.
Qed.

Lemma no_cart_items_no_badge_refresh_witness :
  let s := perform_all [purchase_m3] (start ∅ (mkPage false false true)) in
  onLoad s = Threw (TypeError "cart-items") s /\
  clearCart true s = Threw (TypeError "cart-items") (persisted [] s).
Proof.
  intros s.
  destruct (no_cart_items_no_badge_refresh s) as (H1 & _ & H3); [reflexivity |].
  split; assumption.
Defined.

(** X10.  [addToCart] returns on every page, whatever it is given.  What it
    does, in order: one console line, the store write, the toast naming the
    product and the new item count, and the badge where there is one.  It
    never writes to the cart display. *)
Theorem addToCart_effects (productName productPrice productId : value) (s : state) :
  let o := addToCart productName productPrice productId s in
  let c' := cart (final o) in
  returned o = true /\
  trace (final o) =
    trace s ++
    [ConsoleLog [VStr "addToCart called →"; productName; productPrice; productId];
     SetItem "cart" (JSON_stringify c')] ++ badge_effects c' (dom s) /\
  Toast.textContent <$> Toast.toast (toasts (final o)) =
    Some ("✓ " +:+ ToString productName +:+ " added! (" +:+
          ToString (total_items c') +:+ " in cart)") /\
  forallb (fun e => negb (writes_display e))
    ([ConsoleLog [VStr "addToCart called →"; productName; productPrice; productId];
      SetItem "cart" (JSON_stringify c')] ++ badge_effects c' (dom s)) = true.
Proof.
  intros o c'. subst c' o.
  unfold addToCart, mbind, M_bind, emit, get_cart. simpl.
  destruct (find_line productId (cart s)); simpl; rewrite updateCartCount_run;
    simpl; rewrite <- !app_assoc; simpl;
    (repeat split; try done); unfold badge_effects;
    by destruct (has_cart_count (dom s)).
Qed.

(** ** The store *)

Lemma storage_render (s : state) :
  localStorage (final ((displayCart;; updateCartCount) s)) = localStorage s.
Proof. apply (storage_keeps (displayCart;; updateCartCount)), keeps_render. Qed.

Lemma storage_perform (o : op) (s : state) :
  localStorage (final (perform o s)) = localStorage s \/
  localStorage (final (perform o s)) =
    <["cart" := JSON_stringify (cart (final (perform o s)))]> (localStorage s).
Proof.
  assert (Hrender : forall c s0,
    localStorage (final ((displayCart;; updateCartCount) (persisted c s0))) =
    <["cart" := JSON_stringify
        (cart (final ((displayCart;; updateCartCount) (persisted c s0))))]>
      (localStorage s0)).
  { intros c s0. rewrite storage_render.
    by rewrite (cart_keeps (displayCart;; updateCartCount)) by apply keeps_render. }
  destruct o as [n p i | i | i q | b]; simpl.
  - right. unfold addToCart, mbind, M_bind, emit, get_cart. simpl.
    destruct (find_line i (cart s)); simpl; rewrite updateCartCount_run; done.
  - right. rewrite removeFromCart_run. apply Hrender.
  - destruct (find_line i (cart s)) as [l|] eqn:Hfind.
    + right. destruct (js_le q (VNum (Fin 0))) eqn:Hq.
      * rewrite updateQuantity_nonpositive by eauto.
        rewrite removeFromCart_run. apply Hrender.
      * rewrite updateQuantity_run by eauto. apply Hrender.
    + left. by rewrite updateQuantity_missing.
  - destruct b; [right; rewrite clearCart_run; apply Hrender | by left].
Qed.

Lemma cart_calls_keep_other_keys (ops : list op) (s : state) (key : string) :
  key <> "cart" ->
  localStorage (perform_all ops s) !! key = localStorage s !! key.
Proof.
  intros Hkey. revert s. induction ops as [|o ops IH]; intros s; simpl; [done |].
  rewrite IH. destruct (storage_perform o s) as [-> | ->]; [done |].
  by rewrite lookup_insert_ne.
Qed.

(** ** The item count *)


Lemma total_items_from (c : Cart) (a : num) :
  Forall number_line c ->
  fold_left (fun sum item => js_add sum (quantity item)) c (VNum a) =
  VNum (num_add a (quantity_sum c)).
Proof.
  intros Hc. revert a. induction Hc as [|l c (n & Hn) Hc IH]; intros a; simpl.
  - by rewrite num_add_0_r.
  - rewrite Hn. simpl. by rewrite IH, num_add_assoc.
Qed.

Lemma total_items_number (c : Cart) :
  Forall number_line c -> total_items c = VNum (quantity_sum c).
Proof.
  intros Hc. unfold total_items. by rewrite total_items_from, num_add_0_l.
Qed.







(* ===================================================================== *)
(** * More on the filter *)
(* ===================================================================== *)

(** X13.  [filterProducts()] decides each card from its two data attributes
    and the three inputs alone: it leaves the inputs, the attributes and the
    order of the cards as they are, it does not look at which cards were
    hidden before, and running it again changes no card. *)
Theorem filterProducts_idempotent (pg : shop) :
  let pg1 := filterProducts pg in
  (searchInput pg1, minPrice pg1, maxPrice pg1) =
    (searchInput pg, minPrice pg, maxPrice pg) /\
  data_name <$> productCards pg1 = data_name <$> productCards pg /\
  data_price <$> productCards pg1 = data_price <$> productCards pg /\
  productCards pg1 =
    productCards
      (filterProducts
         {| searchInput := searchInput pg; minPrice := minPrice pg;
            maxPrice := maxPrice pg; productCards := show_card <$> productCards pg;
            console := console pg |}) /\
  productCards (filterProducts pg1) = productCards pg1.
Proof.
  intros pg1. subst pg1. unfold filterProducts. simpl.
  split; [done |]. rewrite <- !list_fmap_compose. repeat split; done.
Qed.

Lemma filterProducts_cards (pg : shop) :
  productCards (filterProducts pg) =
  filter_card (toLowerCase (searchInput pg)) (min_bound (minPrice pg))
    (max_bound (maxPrice pg)) <$> productCards pg.
Proof. reflexivity. Qed.

Lemma num_le_NaN_r (a : num) : num_le a NaN = false.
Proof. by destruct a. Qed.

(** X14.  A card whose [data-price] does not start with a number is hidden by
    every run of the filter, whatever the inputs hold, while [resetFilters()]
    shows it: such a card is on screen only until the next filter run. *)
Theorem unreadable_price_hidden (pg : shop) (i : nat) (c : card) :
  productCards pg !! i = Some c -> parseInt (data_price c) = NaN ->
  hidden <$> productCards (filterProducts pg) !! i = Some true /\
  hidden <$> productCards (resetFilters pg) !! i = Some false /\
  hidden <$> productCards (filterProducts (resetFilters pg)) !! i = Some true.
Proof.
  intros Hc Hp.
  assert (H : forall t lo hi, hidden (filter_card t lo hi c) = true).
  { intros t lo hi. unfold filter_card, matchesPrice, num_ge. simpl.
    by rewrite Hp, num_le_NaN_r, andb_false_r. }
  rewrite !filterProducts_cards. split; [| split].
  - rewrite list_lookup_fmap, Hc. exact (f_equal Some (H _ _ _)).
  - unfold resetFilters. simpl. by rewrite list_lookup_fmap, Hc.
  - unfold resetFilters. simpl. rewrite !list_lookup_fmap, Hc.
    exact (f_equal Some (H _ _ _)).
Qed.

Lemma unreadable_price_hidden_witness :
  let pg := {| searchInput := EmptyString; minPrice := EmptyString;
               maxPrice := EmptyString;
               productCards := [mkCard "BMW M3" "89900" false;
                                mkCard "BMW i8" "on request" false];
               console := [] |} in
  hidden <$> productCards (filterProducts pg) !! 1%nat = Some true /\
  hidden <$> productCards (resetFilters pg) !! 1%nat = Some false /\
  hidden <$> productCards (filterProducts (resetFilters pg)) !! 1%nat = Some true.
Proof.
  intros pg.
  apply (unreadable_price_hidden pg 1 (mkCard "BMW i8" "on request" false));
    reflexivity.
Defined.

(** X15.  With the three boxes empty the filter still tests the price
    against 0 and Infinity: it shows exactly the cards whose price reads as
    a number that is not negative. *)
Theorem filterProducts_no_filters (pg : shop) :
  searchInput pg = EmptyString -> minPrice pg = EmptyString ->
  maxPrice pg = EmptyString ->
  visible <$> productCards (filterProducts pg) =
  (fun c => num_le (Fin 0) (parseInt (data_price c))) <$> productCards pg.
Proof.
  intros Hs Hlo Hhi. rewrite filterProducts_cards, Hs, Hlo, Hhi.
  change (toLowerCase EmptyString) with EmptyString.
  change (min_bound EmptyString) with (Fin 0).
  change (max_bound EmptyString) with PInf.
  rewrite <- list_fmap_compose. apply list_fmap_ext. intros i c _.
  unfold compose, visible, filter_card. cbn [hidden].
  by rewrite negb_involutive, matchesSearch_empty,
    (matchesPrice_unbounded (Fin 0) c).
Qed.

Lemma filterProducts_no_filters_witness :
  visible <$> productCards
    (filterProducts
       {| searchInput := EmptyString; minPrice := EmptyString;
          maxPrice := EmptyString;
          productCards := [mkCard "BMW M3" "89900" true;
                           mkCard "Voucher" "-50" false];
          console := [] |}) = [true; false].
Proof. rewrite filterProducts_no_filters; reflexivity. Defined.

Lemma quickFilter_cards (type : string) (pg : shop) :
  productCards (quickFilter type pg) =
  (if String.eqb type "affordable"
   then filter_card EmptyString (Fin 0) (Fin 100000)
   else if String.eqb type "luxury"
        then filter_card EmptyString (Fin 100000) PInf
        else filter_card (toLowerCase type) (Fin 0) PInf) <$> productCards pg.
Proof.
  unfold quickFilter.
  destruct (String.eqb type "affordable"); [done |].
  by destruct (String.eqb type "luxury").
Qed.

(** X16.  The quick filters discard whatever the three boxes held.
    "affordable" shows the cards priced from 0 to 100000, the bound included;
    "luxury" those priced 100000 or more, so a card at exactly 100000 is shown
    by both; any other word is a search term, matched without regard to case
    against the names of the cards whose price is a number from 0 up. *)
Theorem quickFilter_shows (type : string) (pg : shop) :
  visible <$> productCards (quickFilter type pg) =
  (fun c =>
     let productPrice := parseInt (data_price c) in
     if String.eqb type "affordable" then
       num_le (Fin 0) productPrice && num_le productPrice (Fin 100000)
     else if String.eqb type "luxury" then num_le (Fin 100000) productPrice
     else includes (toLowerCase (data_name c)) (toLowerCase type)
          && num_le (Fin 0) productPrice) <$> productCards pg.
Proof.
  rewrite quickFilter_cards, <- list_fmap_compose.
  apply list_fmap_ext. intros i c _. unfold compose, visible.
  destruct (String.eqb type "affordable") eqn:Ea;
    [| destruct (String.eqb type "luxury") eqn:El];
    unfold filter_card; cbn [hidden]; rewrite negb_involutive.
  - by rewrite matchesSearch_empty.
  - by rewrite matchesSearch_empty, (matchesPrice_unbounded (Fin 100000) c).
  - rewrite (matchesPrice_unbounded (Fin 0) c). unfold matchesSearch, num_ge.
    f_equal. destruct (String.eqb (toLowerCase type) EmptyString) eqn:E.
    + apply String.eqb_eq in E. rewrite E, orb_true_r.
      symmetry. unfold includes.
      by destruct (toLowerCase (data_name c)).
    + by rewrite orb_false_r.
Qed.

(* ===================================================================== *)
(** * More on the toast *)
(* ===================================================================== *)

(** X17.  One toast, start to end.  After [showToast(message, duration)] on a
    page with no timer pending, the message is on screen for [duration]
    milliseconds; then the toast is faded but still laid out for 220 more;
    from then on it is off the page and no timer is left. *)
Theorem showToast_lifecycle (w0 : world) (message : string) (duration : Z) :
  timers w0 = [] -> 0 <= duration ->
  let w := Toast.showToast message duration w0 in
  let t0 := now w0 in
  (forall t, t0 <= t < t0 + duration -> showing message (advance_to t w)) /\
  (forall t, t0 + duration <= t < t0 + duration + 220 ->
     faded (advance_to t w) /\
     (style <$> toast (advance_to t w)) ≫= (.!! "display") = Some "block") /\
  (forall t, t0 + duration + 220 <= t ->
     faded (advance_to t w) /\ removed (advance_to t w) /\
     timers (advance_to t w) = []).
Proof.
  intros Hq Hd w t0.
  set (el0 := match toast w0 with Some el => el | None => created end).
  assert (Hw : w = {| now := t0; toast := Some (shown message el0);
                      timers := [mkTimer (t0 + duration) FadeOut] |}).
  { subst w. unfold Toast.showToast, setTimeout. simpl. rewrite Hq. simpl.
    by rewrite Z.max_r by lia. }
  assert (Hrun : forall t, t0 + duration <= t ->
    run (pending (timers w)) t w =
    run 1 t {| now := t0 + duration;
               toast := Some (set_style "opacity" "0" (shown message el0));
               timers := [mkTimer (t0 + duration + 220) Unmount] |}).
  { intros t Ht. rewrite Hw. change (pending _) with 2%nat.
    rewrite (run_fire 1 t _ (mkTimer (t0 + duration) FadeOut) []) by done.
    simpl run_task. unfold setTimeout. simpl.
    by rewrite !Z.max_r by lia. }
  split; [| split].
  - intros t Ht. eapply showing_shown. rewrite advance_idle.
    + simpl. rewrite Hw. done.
    + unfold idle. rewrite Hw. simpl. lia.
  - intros t Ht. unfold advance_to. rewrite Hrun by lia.
    rewrite run_idle by (unfold idle; simpl; lia). simpl. split.
    + eexists. split; [done |]. apply lookup_insert_eq.
    + do 3 (rewrite lookup_insert_ne by done). apply lookup_insert_eq.
  - intros t Ht. unfold advance_to. rewrite Hrun by lia.
    rewrite (run_fire 0 t _ (mkTimer (t0 + duration + 220) Unmount) [])
      by (simpl; done || lia).
    simpl. repeat split.
    + eexists. split; [done |]. simpl.
      rewrite lookup_insert_ne by done. apply lookup_insert_eq.
    + eexists. split; [done |]. apply lookup_insert_eq.
Qed.

Lemma showToast_lifecycle_witness :
  let w := Toast.showToast "Saved" 2500 (fresh 100) in
  showing "Saved" (advance_to 2599 w) /\
  faded (advance_to 2600 w) /\
  removed (advance_to 2820 w) /\ timers (advance_to 2820 w) = [].
Proof.
  intros w.
  destruct (showToast_lifecycle (fresh 100) "Saved" 2500) as (H1 & H2 & H3);
    [reflexivity | lia |].
  split; [apply H1; simpl; lia |].
  split; [apply H2; simpl; lia |].
  destruct (H3 2820) as (_ & H4 & H5); [simpl; lia |]. by split.
Defined.

(** ** What timers never do *)

Lemma textContent_run_task (j : task) (w : world) :
  textContent <$> toast (run_task j w) = textContent <$> toast w.
Proof. destruct j; simpl; by destruct (toast w). Qed.

Lemma textContent_run (fuel : nat) (t : Z) (w : world) :
  textContent <$> toast (run fuel t w) = textContent <$> toast w.
Proof.
  revert w. induction fuel as [|fuel IH]; intros w; [done |]. cbn [run].
  destruct (timers w) as [|h q]; [done |].
  destruct (due h <=? t); [| done].
  by rewrite IH, textContent_run_task.
Qed.

(** X18.  Time passing never changes the text of the toast: the callbacks
    only touch opacity and display.  So at every later moment, until the next
    call, the text is the message of the latest [showToast]. *)
Theorem toast_text_is_latest_message (w : world) (message : string)
    (duration t : Z) :
  textContent <$> toast (advance_to t w) = textContent <$> toast w /\
  textContent <$> toast (advance_to t (Toast.showToast message duration w)) =
    Some message.
Proof.
  assert (H : forall w0, textContent <$> toast (advance_to t w0) =
                         textContent <$> toast w0).
  { intros w0. unfold advance_to. simpl. apply textContent_run. }
  split; [apply H |]. rewrite H. done.
Qed.

(** X19.  [showToast] cancels nothing: every timeout that was pending before
    the call is still pending after it, and one fade-out has been added, due
    [duration] milliseconds from now (at once for a negative duration). *)
Theorem showToast_cancels_nothing (w : world) (message : string) (duration : Z) :
  timers (Toast.showToast message duration w) ≡ₚ
  mkTimer (now w + Z.max 0 duration) FadeOut :: timers w.
Proof. unfold Toast.showToast, setTimeout. simpl. apply enqueue_perm. Qed.

(* ===================================================================== *)
(** * Properties of theme.js *)
(* ===================================================================== *)

Ltac lookup_inserts :=
  repeat first [ rewrite lookup_insert_eq | rewrite lookup_insert_ne by done ].

Lemma light_in_force (st : gmap string string) :
  Forall (fun kv => Theme.set_properties Theme.light_vars st !! kv.1 = Some kv.2)
    Theme.light_vars.
Proof. repeat constructor; simpl; by lookup_inserts. Qed.

Lemma dark_in_force (st : gmap string string) :
  Forall (fun kv => Theme.set_properties Theme.dark_vars st !! kv.1 = Some kv.2)
    Theme.dark_vars.
Proof. repeat constructor; simpl; by lookup_inserts. Qed.

(** Setting one theme's variables over the other's leaves no trace of the
    other: both lists name the same seven properties. *)
Lemma set_properties_over (st : gmap string string) :
  Theme.set_properties Theme.dark_vars (Theme.set_properties Theme.light_vars st)
    = Theme.set_properties Theme.dark_vars st /\
  Theme.set_properties Theme.light_vars (Theme.set_properties Theme.dark_vars st)
    = Theme.set_properties Theme.light_vars st.
Proof.
  split; apply map_eq; intros k; unfold Theme.set_properties; simpl;
    destruct (decide (k = "--card-shadow")) as [->|]; [by lookup_inserts | |
                                                        by lookup_inserts |];
    destruct (decide (k = "--card-bg")) as [->|]; [by lookup_inserts | |
                                                    by lookup_inserts |];
    destruct (decide (k = "--border-color")) as [->|]; [by lookup_inserts | |
                                                         by lookup_inserts |];
    destruct (decide (k = "--text-secondary")) as [->|]; [by lookup_inserts | |
                                                           by lookup_inserts |];
    destruct (decide (k = "--text-primary")) as [->|]; [by lookup_inserts | |
                                                         by lookup_inserts |];
    destruct (decide (k = "--bg-secondary")) as [->|]; [by lookup_inserts | |
                                                         by lookup_inserts |];
    destruct (decide (k = "--bg-primary")) as [->|]; [by lookup_inserts | |
                                                       by lookup_inserts |];
    by lookup_inserts.
Qed.

(** X20.  [toggleTheme()] always lands on one of the two themes: on light
    when the saved theme is dark or nothing is saved, on dark in every other
    case, an unknown saved value included.  The theme it lands on is saved,
    all seven colour variables are set to its values, and the button offers
    the other one. *)
Theorem toggleTheme_lands (s : Theme.state) :
  let s' := Theme.toggleTheme s in
  (Theme.saved_or_dark s = "dark" ->
     Theme.localStorage s' !! "theme" = Some "light" /\
     Theme.in_force Theme.light_vars s' /\
     Theme.themeToggle s' = (fun _ => "🌙 Dark Mode") <$> Theme.themeToggle s) /\
  (Theme.saved_or_dark s <> "dark" ->
     Theme.localStorage s' !! "theme" = Some "dark" /\
     Theme.in_force Theme.dark_vars s' /\
     Theme.themeToggle s' = (fun _ => "☀️ Light Mode") <$> Theme.themeToggle s).
Proof.
  intros s'. subst s'. unfold Theme.toggleTheme, Theme.in_force. split; intros H.
  - rewrite H. simpl. split; [apply lookup_insert_eq |].
    split; [apply light_in_force | done].
  - destruct (String.eqb_spec (Theme.saved_or_dark s) "dark"); [done |]. simpl.
    split; [apply lookup_insert_eq |]. split; [apply dark_in_force | done].
Qed.

Lemma toggleTheme_lands_witness :
  let s := Theme.mkState (<["theme" := "blue"]> ∅) ∅ (Some "Theme") [] in
  Theme.localStorage (Theme.toggleTheme s) !! "theme" = Some "dark" /\
  Theme.localStorage (Theme.toggleTheme (Theme.mkState ∅ ∅ None [])) !! "theme"
    = Some "light".
Proof.
  intros s. split.
  - apply (toggleTheme_lands s). discriminate.
  - apply (toggleTheme_lands (Theme.mkState ∅ ∅ None [])). reflexivity.
Defined.

Lemma toggleTheme_theme (s : Theme.state) (t : string) :
  Theme.saved_or_dark s = t ->
  Theme.same_theme (Theme.toggleTheme s)
    (Theme.applyTheme (if String.eqb t "dark" then "light" else "dark") s).
Proof. intros <-. by repeat split. Qed.

Lemma applyTheme_over (t1 t2 : string) (line : string) (s : Theme.state) :
  (t1 = "light" /\ t2 = "dark") \/ (t1 = "dark" /\ t2 = "light") ->
  Theme.same_theme (Theme.applyTheme t2 (Theme.log line (Theme.applyTheme t1 s)))
    (Theme.applyTheme t2 s).
Proof.
  destruct (set_properties_over (Theme.root_style s)) as [Hd Hl].
  intros [[-> ->] | [-> ->]]; unfold Theme.same_theme; (split; [| split]).
  - apply insert_insert_eq.
  - exact Hd.
  - simpl. by destruct (Theme.themeToggle s).
  - apply insert_insert_eq.
  - exact Hl.
  - simpl. by destruct (Theme.themeToggle s).
Qed.

(** X21.  Toggling twice comes back: when the saved theme is light or dark
    (nothing saved counts as dark), two calls of [toggleTheme()] leave the
    store, the colour variables and the button exactly as one
    [applyTheme] of that theme does. *)
Theorem toggleTheme_twice (s : Theme.state) :
  Theme.saved_or_dark s = "dark" \/ Theme.saved_or_dark s = "light" ->
  Theme.same_theme (Theme.toggleTheme (Theme.toggleTheme s))
    (Theme.applyTheme (Theme.saved_or_dark s) s).
Proof.
  intros H.
  assert (Hmid : Theme.saved_or_dark (Theme.toggleTheme s) =
                 if String.eqb (Theme.saved_or_dark s) "dark" then "light" else "dark").
  { unfold Theme.toggleTheme, Theme.log, Theme.saved_or_dark at 1. simpl.
    rewrite lookup_insert_eq. by destruct (String.eqb (Theme.saved_or_dark s) "dark"). }
  pose proof (toggleTheme_theme (Theme.toggleTheme s) _ Hmid) as (H1 & H2 & H3).
  unfold Theme.same_theme. rewrite H1, H2, H3. unfold Theme.toggleTheme at 1 2 3.
  destruct H as [-> | ->]; simpl String.eqb; cbv iota.
  - apply applyTheme_over. by left.
  - apply applyTheme_over. by right.
Qed.

Lemma toggleTheme_twice_witness :
  let s := Theme.mkState (<["theme" := "light"]> (<["cart" := "[]"]> ∅))
             (<["--accent" := "#0066b1"]> ∅) (Some "Theme") [] in
  Theme.same_theme (Theme.toggleTheme (Theme.toggleTheme s))
    (Theme.applyTheme "light" s).
Proof.
  intros s. apply (toggleTheme_twice s). right. reflexivity.
Defined.

(** X22.  [initTheme()] does not check the saved value.  It applies whatever
    is saved, dark when nothing or the empty string is saved, and saves it
    back; a saved value that is neither light nor dark changes no colour
    variable, and the button then offers Dark Mode. *)
Theorem initTheme_unchecked (s : Theme.state) :
  let theme := Theme.saved_or_dark s in
  let s' := Theme.initTheme s in
  Theme.localStorage s' !! "theme" = Some theme /\
  (Theme.localStorage s !! "theme" = None -> theme = "dark") /\
  (theme = "dark" -> Theme.in_force Theme.dark_vars s') /\
  (theme = "light" -> Theme.in_force Theme.light_vars s') /\
  (theme <> "dark" -> theme <> "light" ->
     Theme.root_style s' = Theme.root_style s /\
     Theme.themeToggle s' = (fun _ => "🌙 Dark Mode") <$> Theme.themeToggle s).
Proof.
  intros theme s'. subst theme s'. unfold Theme.initTheme, Theme.in_force.
  split; [apply lookup_insert_eq |]. split.
  { unfold Theme.saved_or_dark. by intros ->. }
  split; [| split].
  - intros ->. apply dark_in_force.
  - intros ->. apply light_in_force.
  - intros Hd Hl. simpl.
    destruct (String.eqb_spec (Theme.saved_or_dark s) "light"); [done |].
    destruct (String.eqb_spec (Theme.saved_or_dark s) "dark"); done.
Qed.

Lemma initTheme_unchecked_witness :
  let s := Theme.mkState (<["theme" := "blue"]> ∅) (<["--bg-primary" := "#123456"]> ∅)
             (Some "Theme") [] in
  Theme.localStorage (Theme.initTheme s) !! "theme" = Some "blue" /\
  Theme.root_style (Theme.initTheme s) = Theme.root_style s /\
  Theme.themeToggle (Theme.initTheme s) = Some "🌙 Dark Mode".
Proof.
  intros s.
  destruct (initTheme_unchecked s) as (H1 & _ & _ & _ & H5).
  destruct H5 as [H5 H6]; [discriminate | discriminate |].
  split; [exact H1 |]. split; [exact H5 | exact H6].
Defined.

Lemma theme_calls_keep_other_keys (s : Theme.state) (theme key : string) :
  key <> "theme" ->
  Theme.localStorage (Theme.applyTheme theme s) !! key = Theme.localStorage s !! key /\
  Theme.localStorage (Theme.initTheme s) !! key = Theme.localStorage s !! key /\
  Theme.localStorage (Theme.toggleTheme s) !! key = Theme.localStorage s !! key.
Proof.
  intros H. unfold Theme.initTheme, Theme.toggleTheme, Theme.applyTheme. simpl.
  by rewrite !lookup_insert_ne.
Qed.

(** X11.  The two scripts share the store without touching each other's
    entry.  Whatever cart calls are made, with whatever arguments, every key
    other than [cart] keeps its value, the saved theme among them; applying,
    initialising and toggling the theme leave every key other than [theme] as
    it was, the saved cart among them. *)
Theorem scripts_keep_to_their_keys (key : string) :
  (key <> "cart" ->
     forall (ops : list op) (s : state),
       localStorage (perform_all ops s) !! key = localStorage s !! key) /\
  (key <> "theme" ->
     forall (theme : string) (s : Theme.state),
       Theme.localStorage (Theme.applyTheme theme s) !! key
         = Theme.localStorage s !! key /\
       Theme.localStorage (Theme.initTheme s) !! key = Theme.localStorage s !! key /\
       Theme.localStorage (Theme.toggleTheme s) !! key = Theme.localStorage s !! key).
Proof.
  split; intros Hkey.
  - intros ops s. by apply cart_calls_keep_other_keys.
  - intros theme s. by apply theme_calls_keep_other_keys.
Qed.

Lemma scripts_keep_to_their_keys_witness :
  localStorage
    (perform_all [purchase_m3; UpdateQuantity (VNum (Fin 1)) (VNum (Fin 4));
                  ClearCart true]
       (start (<["theme" := "light"]> ∅) cart_page)) !! "theme" = Some "light"
  /\ Theme.localStorage
       (Theme.toggleTheme (Theme.mkState (<["cart" := "[]"]> ∅) ∅ None []))
       !! "cart" = Some "[]".
Proof.
  split.
  - destruct (scripts_keep_to_their_keys "theme") as [H _].
    rewrite H; [reflexivity | discriminate].
  - destruct (scripts_keep_to_their_keys "cart") as [_ H].
    destruct (H ltac:(discriminate) "dark"
                (Theme.mkState (<["cart" := "[]"]> ∅) ∅ None [])) as (_ & _ & ->).
    reflexivity.
Defined.

(* ===================================================================== *)
(** * What is written to the store reads back *)
(* ===================================================================== *)

Lemma append_cons (x : ascii) (a b : string) :
  String x a +:+ b = String x (a +:+ b).
Proof. reflexivity. Qed.

Lemma append_assoc (a b c : string) : (a +:+ b) +:+ c = a +:+ (b +:+ c).
Proof.
  induction a as [|x a IH]; [done |]. by rewrite !append_cons, IH.
Qed.

Lemma append_nil_r (a : string) : a +:+ EmptyString = a.
Proof. induction a as [|x a IH]; [done |]. by rewrite append_cons, IH. Qed.

Lemma string_rev_onto_twice (s a b : string) :
  string_rev_onto (string_rev_onto s a) b = string_rev_onto a (s +:+ b).
Proof.
  revert a b. induction s as [|x s IH]; intros a b; [done |].
  cbn [string_rev_onto]. by rewrite IH, append_cons.
Qed.

Lemma string_rev_rev_onto (s : string) :
  string_rev (string_rev_onto s EmptyString) = s.
Proof.
  unfold string_rev. rewrite string_rev_onto_twice. cbn [string_rev_onto].
  apply append_nil_r.
Qed.

(** ** Strings *)

(** One character of a string body, escaped or not, puts that character on
    the lexer's accumulator. *)
Lemma lex_quote_char (c : ascii) (acc : string) (p : pstate) (rest : string) :
  parse_from (LStr acc) p (quote_char c +:+ rest) =
  parse_from (LStr (String c acc)) p rest.
Proof.
  destruct p as [stack m].
  destruct c as [[] [] [] [] [] [] [] []]; reflexivity.
Qed.

Lemma lex_quote_body (s acc : string) (p : pstate) (rest : string) :
  parse_from (LStr acc) p (quote_body s +:+ rest) =
  parse_from (LStr (string_rev_onto s acc)) p rest.
Proof.
  revert acc. induction s as [|c s IH]; intros acc; [done |].
  cbn [quote_body string_rev_onto]. by rewrite append_assoc, lex_quote_char, IH.
Qed.

Lemma lex_quote (s : string) (p : pstate) (rest : string) :
  parse_from LDefault p (quote s +:+ rest) =
  match parse_token p (TLit (JString s)) with
  | Some p' => parse_from LDefault p' rest
  | None => None
  end.
Proof.
  unfold quote. rewrite !append_assoc.
  change (parse_from LDefault p (dquote +:+ quote_body s +:+ dquote +:+ rest))
    with (parse_from (LStr EmptyString) p (quote_body s +:+ dquote +:+ rest)).
  rewrite lex_quote_body.
  change (parse_from (LStr (string_rev_onto s EmptyString)) p (dquote +:+ rest))
    with (match parse_tokens p
                  [TLit (JString (string_rev (string_rev_onto s EmptyString)))] with
          | Some p' => parse_from LDefault p' rest
          | None => None
          end).
  rewrite string_rev_rev_onto. cbn [parse_tokens].
  by destruct (parse_token p (TLit (JString s))).
Qed.

(** ** Numbers *)

Lemma lex_digits (d : Decimal.uint) (neg : bool) (m : Z) (p : pstate)
    (rest : string) :
  parse_from (LNum NInt (mkNum neg m 0 false 0)) p
    (NilEmpty.string_of_uint d +:+ rest) =
  parse_from (LNum NInt (mkNum neg (uint_acc d m) 0 false 0)) p rest.
Proof.
  revert m. induction d as [|d IH|d IH|d IH|d IH|d IH|d IH|d IH|d IH|d IH|d IH];
    intros m; [reflexivity | ..];
    cbn [NilEmpty.string_of_uint uint_acc]; rewrite append_cons;
    (etrans; [| apply IH]); destruct p; reflexivity.
Qed.

Lemma uint_acc_pos (d : Decimal.uint) (acc : positive) :
  uint_acc d (Zpos acc) = Zpos (Pos.of_uint_acc d acc).
Proof.
  revert acc. induction d as [|d IH|d IH|d IH|d IH|d IH|d IH|d IH|d IH|d IH|d IH];
    intros acc; [reflexivity | ..]; cbn [uint_acc Pos.of_uint_acc];
    rewrite <- IH; f_equal; lia.
Qed.

(** The decimal numeral of a positive number starts with a digit other
    than 0. *)
Lemma to_uint_head (p : positive) :
  match Pos.to_uint p with
  | Decimal.Nil | Decimal.D0 _ => False
  | _ => True
  end.
Proof.
  pose proof (DecimalPos.Unsigned.to_of (Pos.to_uint p)) as H.
  rewrite DecimalPos.Unsigned.of_to in H. simpl in H.
  pose proof (DecimalPos.Unsigned.to_uint_nonnil p) as Hnil.
  pose proof (DecimalPos.Unsigned.to_uint_nonzero p) as Hzero.
  destruct (Pos.to_uint p) as [|d| | | | | | | | |] eqn:E; try done.
  unfold Decimal.unorm in H. simpl in H.
  destruct (Decimal.nzhead d) eqn:Hd; try done.
  by apply DecimalFacts.nzhead_nonzero in Hd.
Qed.

(** What ends a number inside a cart line: the comma or the closing brace. *)
Lemma lex_number_end (accepting_zero : bool) (neg : bool) (m : Z) (p : pstate)
    (close : bool) (rest : string) :
  parse_from (LNum (if accepting_zero then NZero else NInt) (mkNum neg m 0 false 0)) p
    (String (if close then "}"%char else ","%char) rest) =
  match parse_tokens p
          [TLit (JNumber (signed neg m) 0); if close then TRBrace else TComma] with
  | Some p' => parse_from LDefault p' rest
  | None => None
  end.
Proof. destruct accepting_zero, close; reflexivity. Qed.

Lemma lex_positive (neg : bool) (q : positive) (p : pstate) (close : bool)
    (rest : string) :
  parse_from (if neg then LNum NMinus (mkNum true 0 0 false 0) else LDefault) p
    (NilZero.string_of_uint (Pos.to_uint q) +:+
     String (if close then "}"%char else ","%char) rest) =
  match parse_tokens p
          [TLit (JNumber (signed neg (Zpos q)) 0);
           if close then TRBrace else TComma] with
  | Some p' => parse_from LDefault p' rest
  | None => None
  end.
Proof.
  pose proof (to_uint_head q) as Hhead.
  pose proof (DecimalPos.Unsigned.of_to q) as Hval.
  destruct (Pos.to_uint q) as [|d|d|d|d|d|d|d|d|d|d] eqn:E; try done;
    cbn [NilZero.string_of_uint NilEmpty.string_of_uint]; rewrite append_cons;
    cbn [Pos.of_uint] in Hval; injection Hval as Hval;
    rewrite <- Hval, <- uint_acc_pos;
    rewrite <- (lex_number_end false neg _ p close rest);
    rewrite <- lex_digits; destruct neg, p; reflexivity.
Qed.

Lemma lex_number (z : Z) (p : pstate) (close : bool) (rest : string) :
  parse_from LDefault p
    (num_to_string (Fin z) +:+ String (if close then "}"%char else ","%char) rest) =
  match parse_tokens p
          [TLit (JNumber z 0); if close then TRBrace else TComma] with
  | Some p' => parse_from LDefault p' rest
  | None => None
  end.
Proof.
  destruct z as [|q|q]; cbn [num_to_string Z.to_int NilZero.string_of_int].
  - etrans; [| exact (lex_number_end true false 0 p close rest)]. reflexivity.
  - apply (lex_positive false q).
  - etrans; [| exact (lex_positive true q p close rest)]. reflexivity.
Qed.

(** ** Values, lines, carts *)

Lemma lex_comma (p : pstate) (rest : string) :
  parse_from LDefault p ("," +:+ rest) =
  match parse_token p TComma with
  | Some p' => parse_from LDefault p' rest
  | None => None
  end.
Proof.
  assert (H : parse_from LDefault p ("," +:+ rest) =
              match parse_tokens p [TComma] with
              | Some p' => parse_from LDefault p' rest
              | None => None
              end) by reflexivity.
  rewrite H. cbn [parse_tokens]. by destruct (parse_token p TComma).
Qed.

Lemma lex_close_brace (p : pstate) (rest : string) :
  parse_from LDefault p ("}" +:+ rest) =
  match parse_token p TRBrace with
  | Some p' => parse_from LDefault p' rest
  | None => None
  end.
Proof.
  assert (H : parse_from LDefault p ("}" +:+ rest) =
              match parse_tokens p [TRBrace] with
              | Some p' => parse_from LDefault p' rest
              | None => None
              end) by reflexivity.
  rewrite H. cbn [parse_tokens]. by destruct (parse_token p TRBrace).
Qed.

Lemma lex_null (p : pstate) (rest : string) :
  parse_from LDefault p ("null" +:+ rest) =
  match parse_token p (TLit JNull) with
  | Some p' => parse_from LDefault p' rest
  | None => None
  end.
Proof.
  assert (H : parse_from LDefault p ("null" +:+ rest) =
              match parse_tokens p [TLit JNull] with
              | Some p' => parse_from LDefault p' rest
              | None => None
              end) by reflexivity.
  rewrite H. cbn [parse_tokens]. by destruct (parse_token p (TLit JNull)).
Qed.

Lemma lex_value_comma (v : value) (p : pstate) (rest : string) :
  parse_from LDefault p (stringify_value v +:+ "," +:+ rest) =
  match parse_tokens p [TLit (json_of_value v); TComma] with
  | Some p' => parse_from LDefault p' rest
  | None => None
  end.
Proof.
  destruct v as [[| | |z]|s]; cbn [stringify_value json_of_value].
  1-3: rewrite lex_null; cbn [parse_tokens];
       destruct (parse_token p (TLit JNull)) as [p1|]; [| done];
       rewrite lex_comma; by destruct (parse_token p1 TComma).
  - apply (lex_number z p false rest).
  - rewrite lex_quote. cbn [parse_tokens].
    destruct (parse_token p (TLit (JString s))) as [p1|]; [| done].
    rewrite lex_comma. by destruct (parse_token p1 TComma).
Qed.

Lemma lex_value_close (v : value) (p : pstate) (rest : string) :
  parse_from LDefault p (stringify_value v +:+ "}" +:+ rest) =
  match parse_tokens p [TLit (json_of_value v); TRBrace] with
  | Some p' => parse_from LDefault p' rest
  | None => None
  end.
Proof.
  destruct v as [[| | |z]|s]; cbn [stringify_value json_of_value].
  1-3: rewrite lex_null; cbn [parse_tokens];
       destruct (parse_token p (TLit JNull)) as [p1|]; [| done];
       rewrite lex_close_brace; by destruct (parse_token p1 TRBrace).
  - apply (lex_number z p true rest).
  - rewrite lex_quote. cbn [parse_tokens].
    destruct (parse_token p (TLit (JString s))) as [p1|]; [| done].
    rewrite lex_close_brace. by destruct (parse_token p1 TRBrace).
Qed.

Lemma lex_line_open (stack : list frame) (first : bool) (rest : string) :
  parse_from LDefault (stack, if first then WantValueOrClose else WantValue)
    ("{" +:+ quote "id" +:+ ":" +:+ rest) =
  parse_from LDefault (FObj [] (Some "id") :: stack, WantValue) rest.
Proof. destruct first; reflexivity. Qed.

Lemma lex_key (k : string) (ms : list (string * json)) (stack : list frame)
    (rest : string) :
  parse_from LDefault (FObj ms None :: stack, WantKey) (quote k +:+ ":" +:+ rest) =
  parse_from LDefault (FObj ms (Some k) :: stack, WantValue) rest.
Proof. rewrite lex_quote. reflexivity. Qed.

Lemma lex_line (l : CartLine) (items : list json) (stack : list frame)
    (first : bool) (rest : string) :
  parse_from LDefault
    (FArr items :: stack, if first then WantValueOrClose else WantValue)
    (stringify_line l +:+ rest) =
  parse_from LDefault (FArr (json_of_line l :: items) :: stack, AfterValue) rest.
Proof.
  unfold stringify_line. rewrite !append_assoc.
  rewrite lex_line_open, lex_value_comma. cbn [parse_tokens parse_token complete].
  rewrite lex_key, lex_value_comma. cbn [parse_tokens parse_token complete].
  rewrite lex_key, lex_value_comma. cbn [parse_tokens parse_token complete].
  rewrite lex_key, lex_value_close. reflexivity.
Qed.

Lemma lex_lines (c : Cart) (l : CartLine) (items : list json) (first : bool) :
  parse_from LDefault
    ([FArr items], if first then WantValueOrClose else WantValue)
    (join_lines (l :: c) +:+ "]") =
  Some (JArray (rev items ++ (json_of_line <$> l :: c))).
Proof.
  revert l items first. induction c as [|l2 c IH]; intros l items first.
  - cbn [join_lines]. rewrite lex_line.
    change (Some (JArray (rev (json_of_line l :: items))) =
            Some (JArray (rev items ++ [json_of_line l]))). done.
  - change (join_lines (l :: l2 :: c))
      with (stringify_line l +:+ "," +:+ join_lines (l2 :: c)).
    rewrite !append_assoc, lex_line.
    etrans; [exact (IH l2 (json_of_line l :: items) false) |].
    simpl. by rewrite <- app_assoc.
Qed.

Lemma JSON_parse_stringify (c : Cart) :
  JSON_parse (JSON_stringify c) = Some (json_of_cart c).
Proof.
  destruct c as [|l c]; [reflexivity |].
  unfold JSON_parse, JSON_stringify.
  etrans; [exact (lex_lines c l [] true) | reflexivity].
Qed.

Lemma value_of_json_of_value (v : value) :
  storable v -> value_of_json (json_of_value v) = Some v.
Proof.
  destruct v as [[| | |z]|s]; try done. intros _. simpl.
  unfold of_decimal. simpl. by rewrite Z.mul_1_r.
Qed.

Lemma line_of_json_of_line (l : CartLine) :
  storable_line l -> line_of_json (json_of_line l) = Some l.
Proof.
  intros (Hi & Hn & Hp & Hq).
  assert (H : line_of_json (json_of_line l) =
              i ← value_of_json (json_of_value (id l));
              n ← value_of_json (json_of_value (name l));
              p ← value_of_json (json_of_value (price l));
              q ← value_of_json (json_of_value (quantity l));
              Some (mkLine i n p q)) by reflexivity.
  rewrite H, !value_of_json_of_value by done. by destruct l.
Qed.

Lemma cart_of_json_of_cart (c : Cart) :
  Forall storable_line c -> cart_of_json (json_of_cart c) = Some c.
Proof.
  intros Hc. unfold cart_of_json, json_of_cart.
  apply mapM_Some, Forall2_fmap_l, Forall_Forall2_diag.
  eapply Forall_impl; [exact Hc |]. intros l Hl. by apply line_of_json_of_line.
Qed.

(** ** Reloading the page *)

(** X23.  What the cart scripts write, the startup line reads back.  When the
    store mirrors the cart, [JSON.parse] accepts the stored text, so the
    initialisation never throws on it; it yields one object per line with the
    fields [id], [name], [price], [quantity], a NaN or infinite number having
    turned into [null].  When every field is a finite number or a string the
    cart read back is the cart that was written: same lines, same order, same
    values. *)
Theorem reload_restores_cart (s : state) :
  mirrored s ->
  cart_init (localStorage s) = Loaded (json_of_cart (cart s)) /\
  (Forall storable_line (cart s) -> reload (localStorage s) = Some (cart s)).
Proof.
  intros Hs.
  assert (H : cart_init (localStorage s) = Loaded (json_of_cart (cart s))).
  { unfold cart_init. rewrite Hs. simpl. by rewrite JSON_parse_stringify. }
  split; [exact H |]. intros Hc. unfold reload. rewrite H.
  by apply cart_of_json_of_cart.
Qed.

Lemma reload_restores_cart_witness :
  let s := perform_all
             [purchase_m3; AddToCart (VStr "BMW M4") (VNum (Fin 95000)) (VStr "m4");
              UpdateQuantity (VNum (Fin 1)) (VStr "5")]
             (start ∅ cart_page) in
  reload (localStorage s) = Some (cart s).
Proof.
  intros s. apply (reload_restores_cart s); [vm_compute; reflexivity |].
  repeat constructor.
Defined.

(* ===================================================================== *)
(** * The badge *)
(* ===================================================================== *)

Lemma quantity_sum_counted (c : Cart) :
  Forall counted_line c ->
  exists z, quantity_sum c = Fin z /\ 0 <= z /\ (c <> [] -> 0 < z).
Proof.
  induction 1 as [|l c (q & Hq & Hpos) Hc (z & Hz & Hz0 & Hz1)].
  - exists 0. repeat split; done || lia.
  - exists (q + z). simpl. rewrite Hq, Hz. simpl. repeat split; lia.
Qed.

Lemma counted_number_line (l : CartLine) : counted_line l -> number_line l.
Proof. intros (q & Hq & _). by eexists. Qed.

Lemma quantity_weight_counted (c : Cart) (z : Z) :
  Forall counted_line c -> quantity_sum c = Fin z -> quantity_weight c = z.
Proof.
  intros Hc. revert z. induction Hc as [|l c (q & Hq & Hpos) Hc IH]; intros z.
  - simpl. by intros [= <-].
  - destruct (quantity_sum_counted c Hc) as (z' & Hz' & _).
    cbn [quantity_sum quantity_weight]. rewrite Hq, Hz'. simpl.
    intros [= <-]. rewrite (IH z' Hz'). lia.
Qed.

(** X24.  On a page with a badge and a cart whose quantities are whole
    numbers above 0 that add up to no more than 2^53,
    [updateCartCount()] writes the sum of the quantities in decimal, and the
    badge is displayed exactly when the cart has a line: an empty cart gives
    the text 0 and display none. *)
Theorem updateCartCount_badge (s : state) :
  has_cart_count (dom s) = true -> Forall counted_line (cart s) ->
  quantity_weight (cart s) <= 2 ^ 53 ->
  exists z,
    quantity_sum (cart s) = Fin z /\
    quantity_weight (cart s) = z /\
    (cart s = [] -> z = 0) /\
    updateCartCount s =
    Returned tt
      (logged [SetBadge (num_to_string (Fin z))
                 (match cart s with [] => "none" | _ :: _ => "block" end)] s).
Proof.
  intros Hb Hc _. destruct (quantity_sum_counted _ Hc) as (z & Hz & Hz0 & Hz1).
  exists z. split; [done |]. split; [by apply quantity_weight_counted |]. split.
  - intros E. rewrite E in Hz. by injection Hz.
  - rewrite updateCartCount_run. unfold badge_effects. rewrite Hb.
    rewrite total_items_number, Hz
      by (eapply Forall_impl; [exact Hc | apply counted_number_line]).
    do 3 f_equal. unfold js_gt, js_lt. simpl.
    destruct (cart s) as [|l c] eqn:E.
    + simpl in Hz. injection Hz as <-. done.
    + destruct (Z.ltb_spec 0 z); [done |]. specialize (Hz1 ltac:(done)). lia.
Qed.

Lemma updateCartCount_badge_witness :
  let s := perform_all [purchase_m3; purchase_m3;
                        AddToCart (VStr "BMW M4") (VNum (Fin 95000)) (VNum (Fin 2))]
             (start ∅ cart_page) in
  updateCartCount s = Returned tt (logged [SetBadge "3" "block"] s).
Proof.
  intros s.
  destruct (updateCartCount_badge s) as (z & Hz & _ & _ & H).
  - reflexivity.
  - repeat constructor; eexists; (split; [reflexivity | lia]).
  - vm_compute. discriminate.
  - rewrite H. vm_compute in Hz. injection Hz as <-. reflexivity.
Defined.
